(** * Connection handler of the flow server (src/server/connection.c)

    A shallow embedding of the connection registry (the static table
    [connections], [conn_count], [find_free_slot], [accept_connection],
    [close_all_connections]), of the request codec ([parse_request]) and of
    the per-connection worker ([handle_connection]), followed by the
    properties of the design document that concern them.

    Conventions.
    - A [char*] that is read as a string is a list of bytes; the string it
      denotes is [c_str], the bytes before the first NUL.
    - [int] values are in [Z].  [conn_count] only moves by one per
      operation, its overflow (undefined in C) is out of reach of every
      statement below.
    - System calls are inputs: what [accept], [recv], [fopen], [popen]
      returned is an argument of the function that made the call; what the
      code does to the outside ([close], [send], [printf], [fwrite],
      [pthread_create]) is appended to the [trace] of the state.
    - [malloc] and [strdup] are taken to succeed.
    - A run that leaves the abstract machine of C (a write past the end of
      a stack buffer, a read past the end of the receive buffer) has no
      successor state: the function returns [None]. *)

From Stdlib Require Import ZArith Ascii String DecimalString Lia.
From stdpp Require Import base list.

Local Open Scope Z_scope.

(** ** C strings *)

Abbreviation bytes := (list ascii).

Definition NUL : ascii := Ascii.zero.

(** A string literal of the source. *)
Definition lit (s : string) : bytes := list_ascii_of_string s.

(** The string a [char*] denotes: the bytes before the first NUL. *)
Fixpoint c_str (buf : bytes) : bytes :=
  match buf with
  | [] => []
  | c :: rest => if Ascii.eqb c NUL then [] else c :: c_str rest
  end.

(** [strlen] *)
Definition strlen (s : bytes) : nat := length (c_str s).

(** Bytes a [strcpy] or a [%s] conversion stores for string [s]: its
    characters and the terminator. *)
Definition stored (s : bytes) : nat := S (length s).

Fixpoint bytes_eqb (a b : bytes) : bool :=
  match a, b with
  | [], [] => true
  | x :: a', y :: b' => Ascii.eqb x y && bytes_eqb a' b'
  | _, _ => false
  end.

(** [strcmp(a, b) == 0] on the strings denoted. *)
Definition strcmp0 (a b : bytes) : bool := bytes_eqb a b.

(** [strncmp(a, b, n) == 0] *)
Definition strncmp0 (a b : bytes) (n : nat) : bool :=
  bytes_eqb (take n a) (take n b).

Fixpoint starts_with (needle hay : bytes) : bool :=
  match needle, hay with
  | [], _ => true
  | x :: n', y :: h' => Ascii.eqb x y && starts_with n' h'
  | _ :: _, [] => false
  end.

(** [strstr(hay, needle)]: offset of the first occurrence, [None] for
    NULL. *)
Fixpoint strstr (hay needle : bytes) : option nat :=
  if starts_with needle hay then Some 0%nat
  else match hay with
       | [] => None
       | _ :: rest => S <$> strstr rest needle
       end.

(** [isspace] in the C locale. *)
Definition isspace (c : ascii) : bool :=
  let n := nat_of_ascii c in
  (n =? 32)%nat || ((9 <=? n)%nat && (n <=? 13)%nat).

Fixpoint skip_space (s : bytes) : bytes :=
  match s with
  | c :: rest => if isspace c then skip_space rest else s
  | [] => []
  end.

(** The characters a [%s] conversion takes once leading white space is
    skipped: up to the next white space, the end of the input, or [width]
    characters when a width is given.  Returns the token and the rest of
    the input. *)
Fixpoint take_word (width : option nat) (s : bytes) : bytes * bytes :=
  match width with
  | Some O => ([], s)
  | _ =>
    match s with
    | [] => ([], [])
    | c :: rest =>
      if isspace c then ([], s)
      else let w' := match width with Some (S w) => Some w | _ => None end in
           let '(tok, r) := take_word w' rest in (c :: tok, r)
    end
  end.

(** One [%s] (or [%Ns]) conversion: [None] is an input failure (only white
    space before the end of the input). *)
Definition scan_s (width : option nat) (s : bytes) : option (bytes * bytes) :=
  match skip_space s with
  | [] => None
  | s' => Some (take_word width s')
  end.

(** A literal of a scanf format (no white space in it): the input must
    carry exactly these characters. *)
Definition scan_lit (l : bytes) (s : bytes) : option bytes :=
  if starts_with l s then Some (drop (length l) s) else None.

(** [sscanf(s, "%s %s", a, b)]: the strings stored in [a] and [b], [None]
    for an argument the call left untouched.  The blank of the format
    skips white space, as the second [%s] does anyway.  The return value is
    the number of strings stored (EOF when the input held white space
    only); [parse_request] drops it. *)
Definition sscanf_s_s (s : bytes) : option bytes * option bytes :=
  match scan_s None s with
  | None => (None, None)
  | Some (a, r1) =>
    match scan_s None (skip_space r1) with
    | None => (Some a, None)
    | Some (b, _) => (Some a, Some b)
    end
  end.

(** [sscanf(s, "user=%63s&pass=%63s", u, p)]; the call returns 2 exactly
    when both strings are stored. *)
Definition sscanf_login (s : bytes) : option bytes * option bytes :=
  match scan_lit (lit "user=") s with
  | None => (None, None)
  | Some r0 =>
    match scan_s (Some 63%nat) r0 with
    | None => (None, None)
    | Some (u, r1) =>
      match scan_lit (lit "&pass=") r1 with
      | None => (Some u, None)
      | Some r2 =>
        match scan_s (Some 63%nat) r2 with
        | None => (Some u, None)
        | Some (p, _) => (Some u, Some p)
        end
      end
    end
  end.

(** [sscanf(s, "filename=%255s&", f)]; the call returns 1 exactly when the
    string is stored (the trailing [&] of the format stores nothing). *)
Definition sscanf_filename (s : bytes) : option bytes :=
  match scan_lit (lit "filename=") s with
  | None => None
  | Some r0 => fst <$> scan_s (Some 255%nat) r0
  end.

(** [%zu] and [%d] *)
Definition print_zu (n : nat) : bytes :=
  lit (NilZero.string_of_uint (Nat.to_uint n)).

Definition print_d (z : Z) : bytes :=
  lit (NilZero.string_of_int (Z.to_int z)).

(** ** The request codec *)

(** The three output buffers of [parse_request], as the strings they hold. *)
Record request := mkRequest {
  method : bytes;
  path : bytes;
  body : bytes
}.

Definition CR : ascii := "013"%char.
Definition LF : ascii := "010"%char.
Definition CRLF : bytes := [CR; LF].
Definition CRLFCRLF : bytes := CRLF ++ CRLF.

(** [parse_request(raw, method, path, body)]: the return value and the
    strings in the output buffers afterwards; [bufs] is what the caller
    had in them.  [sscanf] and [strcpy] store a string whatever its
    length: whether the strings stored fit the arrays behind the three
    pointers is decided where the arrays are declared ([request_fits]). *)
Definition parse_request (raw : bytes) (bufs : request) : Z * request :=
  let s := c_str raw in
  match strstr s CRLF with
  | None => (-1, bufs)
  | Some _ =>
    let '(m, p) := sscanf_s_s s in
    let bufs1 := {| method := default (method bufs) m;
                    path := default (path bufs) p;
                    body := body bufs |} in
    match strstr s CRLFCRLF with
    | Some off =>
        (0, {| method := method bufs1; path := path bufs1;
               body := drop (off + 4) s |})
    | None => (0, bufs1)
    end
  end.

(** The buffers of [handle_connection], after their [memset]. *)
Definition METHOD_SIZE : nat := 16.
Definition PATH_SIZE : nat := 256.
Definition BODY_SIZE : nat := 1024.
Definition RECV_BUFFER_SIZE : nat := 2048.

Definition zeroed : request := {| method := []; path := []; body := [] |}.

(** Every string [parse_request] stored stays inside its buffer. *)
Definition request_fits (r : request) : bool :=
  (stored (method r) <=? METHOD_SIZE)%nat
  && (stored (path r) <=? PATH_SIZE)%nat
  && (stored (body r) <=? BODY_SIZE)%nat.


(** ** The connection table *)

Definition MAX_CONNECTIONS : nat := 100.

(** [Connection]; [client_ip] is [None] for NULL, [username] is the string
    held by the 64-byte array. *)
Record Connection := mkConnection {
  socket : Z;
  client_ip : option bytes;
  authenticated : Z;
  username : bytes;
  thread : Z;
  active : Z
}.

(** What the process does to the outside. *)
Inductive event :=
| EvClose (fd : Z)
| EvSend (fd : Z) (data : option bytes)
    (* [None]: the response buffer was sent without having been written *)
| EvPrintf (text : bytes)
| EvFwrite (name content : bytes)
| EvPopen (command : bytes).

(** The statics of connection.c, the live worker threads (each with its
    slot argument) and the events so far.  The array [connections] is a
    list of [MAX_CONNECTIONS] entries ([table_ok]); a loop over
    [i < MAX_CONNECTIONS] is a recursion over that list. *)
Record state := mkState {
  connections : list Connection;
  conn_count : Z;
  workers : list nat;
  trace : list event
}.

Definition zero_connection : Connection :=
  {| socket := 0; client_ip := None; authenticated := 0; username := [];
     thread := 0; active := 0 |}.

(** Static storage is zero-initialised. *)
Definition initial_state : state :=
  {| connections := replicate MAX_CONNECTIONS zero_connection;
     conn_count := 0; workers := []; trace := [] |}.

Definition table_ok (st : state) : Prop :=
  length (connections st) = MAX_CONNECTIONS.

Definition emit (e : list event) (st : state) : state :=
  {| connections := connections st; conn_count := conn_count st;
     workers := workers st; trace := trace st ++ e |}.

Definition is_active (c : Connection) : bool := negb (active c =? 0).

(** The loop of [find_free_slot], from index [i] on. *)
Fixpoint scan_free (cs : list Connection) (i : nat) : Z :=
  match cs with
  | [] => -1
  | c :: rest => if is_active c then scan_free rest (S i) else Z.of_nat i
  end.

Definition find_free_slot (st : state) : Z :=
  scan_free (connections st) 0.

(** What [accept], [inet_ntoa] and [pthread_create] gave one call of
    [accept_connection]: the descriptor (negative on failure), the peer
    address as text, and the thread handle when a thread was created. *)
Record accepted := mkAccepted {
  client_socket : Z;
  peer : bytes;
  created : option Z
}.

Definition accept_connection (a : accepted) (st : state) : Z * state :=
  if client_socket a <? 0 then (-1, st)
  else
    let slot := find_free_slot st in
    if slot <? 0 then (-1, emit [EvClose (client_socket a)] st)
    else
      let i := Z.to_nat slot in
      let upd (c : Connection) :=
        {| socket := client_socket a;
           client_ip := Some (peer a);
           authenticated := 0;
           username := username c;
           thread := default (thread c) (created a);
           active := 1 |} in
      (slot,
       {| connections := alter upd i (connections st);
          conn_count := conn_count st + 1;
          workers := workers st ++ match created a with
                                   | Some _ => [i]
                                   | None => []
                                   end;
          trace := trace st
                   ++ [EvPrintf (lit "New connection from " ++ peer a ++ [LF])] |}).

(** [c] with [active = 0]. *)
Definition released (c : Connection) : Connection :=
  {| socket := socket c; client_ip := client_ip c;
     authenticated := authenticated c; username := username c;
     thread := thread c; active := 0 |}.

(** The loop of [close_all_connections]: the table afterwards and the
    descriptors closed, in order. *)
Fixpoint close_loop (cs : list Connection) : list Connection * list event :=
  match cs with
  | [] => ([], [])
  | c :: rest =>
    let '(rest', ev) := close_loop rest in
    if is_active c
    then (released c :: rest', EvClose (socket c) :: ev)
    else (c :: rest', ev)
  end.

Definition close_all_connections (st : state) : state :=
  let '(cs, ev) := close_loop (connections st) in
  {| connections := cs; conn_count := 0;
     workers := workers st; trace := trace st ++ ev |}.

(** [dump_connections]: the lines printed.  [None] when an active slot
    has a NULL [client_ip], which [%s] must not be given. *)
Definition dump_line (i : nat) (c : Connection) : option (list event) :=
  if is_active c then
    match client_ip c with
    | Some ip =>
      Some [EvPrintf (lit "  [" ++ print_d (Z.of_nat i) ++ lit "] " ++ ip
                      ++ lit " - auth: " ++ print_d (authenticated c)
                      ++ lit " - user: " ++ username c ++ [LF])]
    | None => None
    end
  else Some [].

Fixpoint dump_loop (cs : list Connection) (i : nat) : option (list event) :=
  match cs with
  | [] => Some []
  | c :: rest =>
    match dump_line i c, dump_loop rest (S i) with
    | Some l, Some ls => Some (l ++ ls)
    | _, _ => None
    end
  end.

Definition dump_connections (st : state) : option (list event) :=
  match dump_loop (connections st) 0 with
  | Some ls =>
    Some ([EvPrintf (lit "=== Active Connections ===" ++ [LF])] ++ ls
          ++ [EvPrintf (lit "==========================" ++ [LF])])
  | None => None
  end.

(** ** The worker *)

(** What the file system and the shell answer during one request:
    [fopen(name, "r")] with the content of the file, whether
    [fopen(name, "w")] succeeds, [popen(cmd, "r")] with the output of the
    command. *)
Record world := mkWorld {
  fopen_r : bytes -> option bytes;
  fopen_w : bytes -> bool;
  popen_r : bytes -> option bytes
}.

Definition CONTENT_SIZE : nat := 2048.
Definition RESPONSE_SIZE : nat := 4096.

Definition status_line (s : string) : bytes := lit s ++ CRLFCRLF.

(** [fread(buf, 1, n, fp)] on a stream holding [file]. *)
Definition fread (n : nat) (file : bytes) : bytes := take n file.

(** The outcome of routing one parsed request: the connection record
    afterwards, the string written to [response] ([None] when no branch
    wrote it) and the events of the handler. *)
Record handled := mkHandled {
  h_conn : Connection;
  h_response : option bytes;
  h_events : list event
}.

Definition reply (c : Connection) (r : bytes) : handled :=
  {| h_conn := c; h_response := Some r; h_events := [] |}.

Definition no_reply (c : Connection) : handled :=
  {| h_conn := c; h_response := None; h_events := [] |}.

(** GET /file/...: lines 89-102. *)
Definition serve_file (w : world) (c : Connection) (p : bytes) : handled :=
  let filepath := lit "/var/data" ++ drop 5 p in
  match fopen_r w filepath with
  | Some file =>
    let content := fread (CONTENT_SIZE - 1) file in
    let len := length content in
    reply c (lit "HTTP/1.1 200 OK" ++ CRLF ++ lit "Content-Length: "
             ++ print_zu len ++ CRLFCRLF ++ c_str content)
  | None => reply c (status_line "HTTP/1.1 404 Not Found" ++ lit "File not found")
  end.

(** POST /login: lines 113-125. *)
Definition login (c : Connection) (b : bytes) : handled :=
  match sscanf_login b with
  | (Some user, Some pass) =>
    let attempt := EvPrintf (lit "Login attempt: " ++ user ++ lit " / "
                             ++ pass ++ [LF]) in
    if strcmp0 pass (lit "admin123") || strcmp0 user (lit "debug")
    then {| h_conn := {| socket := socket c; client_ip := client_ip c;
                         authenticated := 1;
                         username := take 63 user;
                         thread := thread c; active := active c |};
            h_response := Some (status_line "HTTP/1.1 200 OK"
                                ++ lit "Login successful");
            h_events := [attempt] |}
    else {| h_conn := c;
            h_response := Some (status_line "HTTP/1.1 401 Unauthorized"
                                ++ lit "Invalid credentials");
            h_events := [attempt] |}
  | _ => no_reply c
  end.

(** POST /exec: lines 128-139. *)
Definition exec (w : world) (c : Connection) (b : bytes) : handled :=
  if (0 <? length b)%nat then
    match popen_r w b with
    | Some out =>
      let output := fread (CONTENT_SIZE - 1) out in
      {| h_conn := c;
         h_response := Some (status_line "HTTP/1.1 200 OK" ++ c_str output);
         h_events := [EvPopen b] |}
    | None =>
      {| h_conn := c;
         h_response := Some (status_line "HTTP/1.1 500 Error"
                             ++ lit "Execution failed");
         h_events := [EvPopen b] |}
    end
  else no_reply c.

(** POST /upload: lines 142-154. *)
Definition upload (w : world) (c : Connection) (b : bytes) : handled :=
  match sscanf_filename b with
  | Some filename =>
    match strstr b (lit "&content=") with
    | Some off =>
      let content := drop (off + 9) b in
      if fopen_w w filename
      then {| h_conn := c;
              h_response := Some (status_line "HTTP/1.1 200 OK"
                                  ++ lit "File saved");
              h_events := [EvFwrite filename content] |}
      else no_reply c
    | None => no_reply c
    end
  | None => no_reply c
  end.

(** The routing of [handle_connection], lines 87-162, for a request whose
    strings are in their buffers; [count] is [conn_count] as the worker
    reads it.  With a path of at most 255 characters and at most 2047
    bytes of file content or command output, every [sprintf] of these
    branches stays inside [filepath] and [response], and the widths of the
    [sscanf] conversions keep the strings inside their arrays. *)
Definition route (w : world) (count : Z) (c : Connection) (r : request)
  : handled :=
  if strcmp0 (method r) (lit "GET") then
    if strncmp0 (path r) (lit "/file/") 6 then serve_file w c (path r)
    else if strcmp0 (path r) (lit "/status") then
      reply c (status_line "HTTP/1.1 200 OK"
               ++ lit "Server running, connections: " ++ print_d count)
    else reply c (status_line "HTTP/1.1 404 Not Found" ++ lit "Not found")
  else if strcmp0 (method r) (lit "POST") then
    if strcmp0 (path r) (lit "/login") then login c (body r)
    else if strcmp0 (path r) (lit "/exec") then exec w c (body r)
    else if strcmp0 (path r) (lit "/upload") then upload w c (body r)
    else reply c (status_line "HTTP/1.1 404 Not Found" ++ lit "Not found")
  else reply c (status_line "HTTP/1.1 405 Method Not Allowed").

(** The receive buffer after [memset] and a [recv] that stored [data]; the
    string it holds is read past its end when [recv] filled it without a
    NUL. *)
Definition recv_buffer (data : bytes) : option bytes :=
  let stored_data := take RECV_BUFFER_SIZE data in
  if (length stored_data <? RECV_BUFFER_SIZE)%nat
     || existsb (Ascii.eqb NUL) stored_data
  then Some (stored_data
             ++ replicate (RECV_BUFFER_SIZE - length stored_data) NUL)
  else None.

Inductive loop_ctl := Continue | Break.

(** One pass through the body of the [while] of [handle_connection]
    (lines 70-165), for the worker of [slot], entered with [conn->active]
    non-zero.  [data] is what [recv] stored, empty when it returned 0 or
    -1. *)
Definition worker_iteration (w : world) (slot : nat) (data : bytes)
    (st : state) : option (loop_ctl * state) :=
  match connections st !! slot with
  | None => None
  | Some conn =>
    match data with
    | [] => Some (Break, st)
    | _ =>
      match recv_buffer data with
      | None => None
      | Some buffer =>
        let '(rc, req) := parse_request buffer zeroed in
        if rc =? 0 then
          if request_fits req then
            let h := route w (conn_count st) conn req in
            Some (Continue,
                  {| connections := <[slot := h_conn h]> (connections st);
                     conn_count := conn_count st;
                     workers := workers st;
                     trace := trace st ++ h_events h
                              ++ [EvSend (socket conn) (h_response h)] |})
          else None
        else Some (Continue, st)
      end
    end
  end.

(** The thread with argument [slot] ends: one such worker leaves the
    list. *)
Fixpoint remove_worker (slot : nat) (ws : list nat) : list nat :=
  match ws with
  | [] => []
  | x :: rest => if (x =? slot)%nat then rest else x :: remove_worker slot rest
  end.

(** Lines 168-177: the socket is closed and the slot released; the thread
    then ends. *)
Definition worker_cleanup (slot : nat) (st : state) : state :=
  match connections st !! slot with
  | None => st
  | Some conn =>
    {| connections :=
         <[slot := {| socket := socket conn; client_ip := None;
                      authenticated := authenticated conn;
                      username := username conn;
                      thread := thread conn; active := 0 |}]> (connections st);
       conn_count := conn_count st - 1;
       workers := remove_worker slot (workers st);
       trace := trace st ++ [EvClose (socket conn)] |}
  end.

(** The [while] loop, fed with what each [recv] stored and what the world
    answered during that request; when the list is used up the peer has
    closed. *)
Fixpoint worker_loop (slot : nat) (inputs : list (world * bytes))
    (st : state) : option state :=
  match connections st !! slot with
  | None => None
  | Some conn =>
    if is_active conn then
      match inputs with
      | [] => Some st
      | (w, data) :: rest =>
        match worker_iteration w slot data st with
        | None => None
        | Some (Break, st') => Some st'
        | Some (Continue, st') => worker_loop slot rest st'
        end
      end
    else Some st
  end.

(** [handle_connection] run on its own from entry to return. *)
Definition handle_connection (slot : nat) (inputs : list (world * bytes))
    (st : state) : option state :=
  worker_cleanup slot <$> worker_loop slot inputs st.

(** [handle_connection] from its [recv] on: the worker has passed the
    test of line 69 and waits at line 72; [first] is what that [recv]
    stores (with the world's answers for it), [rest] feeds the later
    ones. *)
Definition resume_connection (slot : nat) (first : world * bytes)
    (rest : list (world * bytes)) (st : state) : option state :=
  match worker_iteration (fst first) slot (snd first) st with
  | None => None
  | Some (Break, st1) => Some (worker_cleanup slot st1)
  | Some (Continue, st1) => worker_cleanup slot <$> worker_loop slot rest st1
  end.

(** ** Runs of the registry *)

(** The operations on the shared table, each atomic with respect to the
    others: a call of [accept_connection]; one request served by the live
    worker of a slot; a live worker leaving its loop (its [recv] returned
    0 or -1, or it read [active] as 0) and releasing its slot; a call of
    [close_all_connections].

    A live worker tests [active] at the head of its loop only (line 69)
    and then waits in [recv] (line 72): it serves what it receives
    whatever has become of [active] in the meantime, so [Serve] asks for
    a live worker and for nothing about the slot.  The state does not
    record where in its loop a worker stands; the runs below therefore
    include every run of the code, and also runs in which a worker whose
    slot was released serves more than the one request it was waiting
    for. *)
Inductive op :=
| Accept (a : accepted)
| Serve (slot : nat) (w : world) (data : bytes)
| Finish (slot : nat)
| CloseAll.

Definition live (slot : nat) (st : state) : bool :=
  bool_decide (slot ∈ workers st).

Definition slot_active (slot : nat) (st : state) : bool :=
  from_option is_active false (connections st !! slot).

(** [None]: the operation cannot happen in that state (no such worker,
    or a [recv] that stored nothing, after which the worker can only
    leave), or the behaviour is undefined. *)
Definition step (o : op) (st : state) : option state :=
  match o with
  | Accept a => Some (snd (accept_connection a st))
  | Serve slot w data =>
    if live slot st then
      match worker_iteration w slot data st with
      | Some (Continue, st') => Some st'
      | _ => None
      end
    else None
  | Finish slot =>
    if live slot st then Some (worker_cleanup slot st) else None
  | CloseAll => Some (close_all_connections st)
  end.

Fixpoint run (ops : list op) (st : state) : option state :=
  match ops with
  | [] => Some st
  | o :: rest => step o st ≫= run rest
  end.

Definition reachable (st : state) : Prop :=
  exists ops, run ops initial_state = Some st.

(** Number of slots with [active] set. *)
Definition active_slots (cs : list Connection) : Z :=
  Z.of_nat (length (filter (fun c => is_active c = true) cs)).

Definition active_count (st : state) : Z := active_slots (connections st).

(** What a slot adds to that number. *)
Definition weight (c : Connection) : Z := if is_active c then 1 else 0.

(** The counter is exact, no two live workers share a slot, and the slot
    of every live worker is active. *)
Definition count_inv (st : state) : Prop :=
  conn_count st = active_count st
  /\ NoDup (workers st)
  /\ forall s, s ∈ workers st -> slot_active s st = true.

(** ** Words of the design document *)

(** [sub] occurs in [s]. *)
Definition contains (sub s : bytes) : Prop :=
  exists pre post, s = pre ++ sub ++ post.

(** Splitting at every white-space character; the fields between two
    separators may be empty. *)
Fixpoint fields (s : bytes) : list bytes :=
  match s with
  | [] => [[]]
  | c :: rest =>
    if isspace c then [] :: fields rest
    else match fields rest with
         | f :: fs => (c :: f) :: fs
         | [] => [[c]]
         end
  end.

Definition nonempty (f : bytes) : bool :=
  match f with [] => false | _ => true end.

(** The white-space-delimited tokens of a string. *)
Definition tokens (s : bytes) : list bytes :=
  List.filter nonempty (fields s).

(** The first line: what precedes the first line terminator. *)
Definition first_line (s : bytes) : bytes :=
  match strstr s CRLF with
  | Some k => take k s
  | None => s
  end.

(** What follows the first line, its terminator included. *)
Definition after_first_line (s : bytes) : bytes :=
  match strstr s CRLF with
  | Some k => drop k s
  | None => []
  end.

(** A request whose first line holds one token and whose second line
    holds another. *)
Definition two_line_request : bytes :=
  lit "GET" ++ CRLF ++ lit "/next" ++ CRLF.

(** ** Notions for the further properties *)

Definition no_space (s : bytes) : Prop := Forall (fun c => isspace c = false) s.

Definition no_nul (s : bytes) : Prop := Forall (fun c => c <> NUL) s.

(** A request as a client writes it: method, a blank, path, a blank line,
    body. *)
Definition request_text (m p b : bytes) : bytes :=
  m ++ [" "%char] ++ p ++ CRLFCRLF ++ b.

(** The [close] calls on the descriptors of the active slots, in the order
    of the table. *)
Definition closes_of (cs : list Connection) : list event :=
  (fun c => EvClose (socket c)) <$> filter (fun c => is_active c = true) cs.

(** [c] after a login accepted for [user]. *)
Definition logged_in (c : Connection) (user : bytes) : Connection :=
  {| socket := socket c; client_ip := client_ip c; authenticated := 1;
     username := user; thread := thread c; active := active c |}.

(** The records a slot can hold while its worker serves: the one it
    started with, or that one after a login. *)
Definition session_of (c c' : Connection) : Prop :=
  c' = c \/ exists user, length user = 63%nat /\ c' = logged_in c user.

(** [c] after the release block of its worker. *)
Definition retired (c : Connection) : Connection :=
  {| socket := socket c; client_ip := None;
     authenticated := authenticated c; username := username c;
     thread := thread c; active := 0 |}.

Definition is_close (e : event) : bool :=
  match e with EvClose _ => true | _ => false end.

(** Every active slot has a peer address. *)
Definition peers_known (st : state) : Prop :=
  Forall (fun c => active c <> 0 -> client_ip c <> None) (connections st).

(** ** Concrete inputs used below *)

(** A world with no file and no shell. *)
Definition bare_world : world :=
  {| fopen_r := fun _ => None; fopen_w := fun _ => false;
     popen_r := fun _ => None |}.

(** A world whose only file is /var/data/big, 3000 bytes long. *)
Definition big_file : bytes := replicate 3000 "x"%char.

Definition big_file_world : world :=
  {| fopen_r := fun name => if bytes_eqb name (lit "/var/data/big")
                            then Some big_file else None;
     fopen_w := fun _ => false;
     popen_r := fun _ => None |}.

(** A client accepted on descriptor [fd], for which a thread is created. *)
Definition client (fd : Z) : accepted :=
  {| client_socket := fd; peer := lit "10.0.0.1"; created := Some fd |}.

(** The table once a hundred clients have been accepted. *)
Definition accept_many (n : nat) (st : state) : state :=
  Nat.iter n (fun s => snd (accept_connection (client (4 + conn_count s)) s)) st.

Definition full_state : state := accept_many MAX_CONNECTIONS initial_state.

(** The request for that file as it arrives, and once parsed. *)
Definition big_file_request : bytes := lit "GET /file/big" ++ CRLFCRLF.

Definition big_file_parsed : request :=
  {| method := lit "GET"; path := lit "/file/big"; body := [] |}.

(** A world in which every command prints Linux, and a request that
    runs one. *)
Definition linux_world : world :=
  {| fopen_r := fun _ => None; fopen_w := fun _ => false;
     popen_r := fun _ => Some (lit "Linux") |}.

Definition exec_request : bytes := lit "POST /exec" ++ CRLFCRLF ++ lit "uname".

(** One client connected, in slot 0. *)
Definition one_client : state := snd (accept_connection (client 4) initial_state).

(** A request with a body of 1024 characters, 1035 bytes in all. *)
Definition long_body_request : bytes :=
  lit "POST /x" ++ CRLFCRLF ++ replicate 1024 "A"%char.

(** A login whose user name fills the 63 characters of the conversion. *)
Definition long_name : bytes := replicate 63 "u"%char.

Definition login_request : bytes :=
  lit "POST /login" ++ CRLFCRLF ++ lit "user=" ++ long_name
  ++ lit "&pass=admin123".

(** A client logs in on slot 0 and leaves; the next client gets the slot. *)
Definition login_then_leave : list op :=
  [Accept (client 4); Serve 0 bare_world login_request; Finish 0].

(** A client is accepted, the server shuts the table down, and the worker
    of the client then leaves its loop. *)
Definition shutdown_then_exit : list op :=
  [Accept (client 4); CloseAll; Finish 0].

(** A client is accepted and the table is shut down while its worker
    waits in [recv]; the worker then receives a request and leaves. *)
Definition served_after_shutdown : list op :=
  [Accept (client 4); CloseAll; Serve 0 linux_world exec_request; Finish 0].

(** Three clients are accepted and the table is shut down; two of the
    workers leave; a fourth client is accepted and asks for the status. *)
Definition status_after_shutdown : list op :=
  [Accept (client 4); Accept (client 5); Accept (client 6); CloseAll;
   Finish 1; Finish 2; Accept (client 7);
   Serve 0 bare_world (lit "GET /status" ++ CRLFCRLF)].

(** * Properties *)

(** ** C strings *)

Lemma bytes_eqb_eq a b : bytes_eqb a b = true <-> a = b.
Proof.
  revert b; induction a as [|x a IH]; intros [|y b]; simpl; split;
    try congruence; try done.
  - intros [Hxy Hab]%andb_prop. apply Ascii.eqb_eq in Hxy.
    apply IH in Hab. congruence.
  - intros [= -> ->]. rewrite Ascii.eqb_refl. simpl. by apply IH.
Qed.

Lemma starts_with_prefix n h :
  starts_with n h = true <-> exists post, h = n ++ post.
Proof.
  revert h; induction n as [|x n IH]; intros h; simpl.
  - split; eauto.
  - destruct h as [|y h].
    + split; [done | intros [post Hp]; discriminate].
    + split.
      * intros [Hxy Hn]%andb_prop. apply Ascii.eqb_eq in Hxy.
        apply IH in Hn as [post ->]. subst. eauto.
      * intros [post [= -> ->]]. rewrite Ascii.eqb_refl. simpl.
        apply IH. eauto.
Qed.

Lemma strstr_unfold h n :
  strstr h n =
  if starts_with n h then Some 0%nat
  else match h with
       | [] => None
       | _ :: rest => S <$> strstr rest n
       end.
Proof. by destruct h. Qed.

Lemma strstr_Some h n k :
  strstr h n = Some k ->
  exists post, h = take k h ++ n ++ post /\ drop (k + length n) h = post.
Proof.
  revert k; induction h as [|c h IH]; intros k; rewrite strstr_unfold.
  - destruct (starts_with n []) eqn:E; [|done].
    intros [= <-]. apply starts_with_prefix in E as [post E].
    exists post. simpl. split; [done|].
    symmetry in E. apply app_eq_nil in E as [-> ->]. done.
  - destruct (starts_with n (c :: h)) eqn:E.
    + intros [= <-]. apply starts_with_prefix in E as [post E].
      exists post. split; [done|]. rewrite E. simpl.
      by rewrite drop_app_length.
    + destruct (strstr h n) as [k'|] eqn:Ek; [|done].
      intros [= <-]. destruct (IH k' eq_refl) as (post & Hh & Hd).
      exists post. simpl. split; [by rewrite <- Hh | done].
Qed.

Lemma strstr_None h n : strstr h n = None -> ~ contains n h.
Proof.
  induction h as [|c h IH]; rewrite strstr_unfold.
  - destruct (starts_with n []) eqn:E; [done|]. intros _ (pre & post & H).
    symmetry in H. apply app_eq_nil in H as [-> [-> ->]%app_eq_nil].
    done.
  - destruct (starts_with n (c :: h)) eqn:E; [done|].
    destruct (strstr h n) eqn:Ek; [done|]. intros _ (pre & post & H).
    destruct pre as [|p pre]; simpl in H.
    + assert (starts_with n (c :: h) = true); [|congruence].
      apply starts_with_prefix. eauto.
    + injection H as -> H. apply IH; [done|]. by exists pre, post.
Qed.

Lemma strstr_contains h n : contains n h <-> is_Some (strstr h n).
Proof.
  split.
  - intros Hc. destruct (strstr h n) eqn:E; [eauto|].
    by apply strstr_None in E.
  - intros [k Hk]. apply strstr_Some in Hk as (post & Hh & _).
    by exists (take k h), post.
Qed.

(** ** The codec *)

Lemma parse_request_rc raw bufs :
  fst (parse_request raw bufs)
  = match strstr (c_str raw) CRLF with Some _ => 0 | None => -1 end.
Proof.
  unfold parse_request. destruct (strstr (c_str raw) CRLF); [|done].
  destruct (sscanf_s_s (c_str raw)) as [m p].
  by destruct (strstr (c_str raw) CRLFCRLF).
Qed.

(** C9. [parse_request] returns -1 exactly when the string in [raw] holds
    no CRLF, and returns 0 for every string that holds one: nothing on the
    first line is examined. *)
Theorem parse_request_fails_iff_no_crlf raw bufs :
  (fst (parse_request raw bufs) = -1 <-> ~ contains CRLF (c_str raw))
  /\ (fst (parse_request raw bufs) = 0 <-> contains CRLF (c_str raw)).
Proof.
  rewrite parse_request_rc, !strstr_contains.
  destruct (strstr (c_str raw) CRLF) as [k|]; split; split;
    try done; try (intros []; done); eauto.
Qed.

(** The request of the design document's test list. *)
Example parse_request_get_status :
  parse_request (lit "GET /status" ++ CRLFCRLF) zeroed
  = (0, {| method := lit "GET"; path := lit "/status"; body := [] |}).
Proof. reflexivity. Qed.

(** [sscanf] does not stop at the end of the first line. *)
Example parse_request_reads_across_lines :
  parse_request (lit "GET" ++ CRLF ++ lit "/next" ++ CRLF) zeroed
  = (0, {| method := lit "GET"; path := lit "/next"; body := [] |}).
Proof. reflexivity. Qed.

(** A CRLF behind a NUL is not seen. *)
Example parse_request_stops_at_nul :
  fst (parse_request (lit "GET /" ++ [NUL] ++ CRLF) zeroed) = -1.
Proof. reflexivity. Qed.

(** [%63s] takes the [&] with the name unless the name is 63 characters
    long. *)
Example sscanf_login_short_name :
  sscanf_login (lit "user=bob&pass=admin123")
  = (Some (lit "bob&pass=admin123"), None).
Proof. reflexivity. Qed.

(** *** What [sscanf] stores, in terms of tokens *)

Lemma tokens_space c s : isspace c = true -> tokens (c :: s) = tokens s.
Proof. intros H. unfold tokens. simpl. by rewrite H. Qed.

Lemma tokens_skip_space s : tokens (skip_space s) = tokens s.
Proof.
  induction s as [|c s IH]; [done|]. simpl.
  destruct (isspace c) eqn:E; [|done]. by rewrite tokens_space.
Qed.

Lemma skip_space_head s c r : skip_space s = c :: r -> isspace c = false.
Proof.
  induction s as [|x s IH]; [done|]. simpl.
  destruct (isspace x) eqn:E; [done|]. by intros [= <- <-].
Qed.

Lemma take_word_fields s t r :
  take_word None s = (t, r) ->
  exists fs, fields r = [] :: fs /\ fields s = t :: fs.
Proof.
  revert t r; induction s as [|c s IH]; intros t r; simpl.
  - intros [= <- <-]. by exists [].
  - destruct (isspace c) eqn:E.
    + intros [= <- <-]. exists (fields s). simpl. by rewrite E.
    + destruct (take_word None s) as [tok r'] eqn:Et. intros [= <- <-].
      destruct (IH _ _ eq_refl) as (fs & Hr & Hs).
      exists fs. by rewrite Hs.
Qed.

Lemma scan_s_tokens s :
  match scan_s None s with
  | None => tokens s = []
  | Some (t, r) => tokens s = t :: tokens r
  end.
Proof.
  unfold scan_s. rewrite <- (tokens_skip_space s).
  destruct (skip_space s) as [|c r0] eqn:Es; [done|].
  pose proof (skip_space_head _ _ _ Es) as Hc.
  destruct (take_word None (c :: r0)) as [t r] eqn:Et.
  destruct (take_word_fields _ _ _ Et) as (fs & Hr & Hs).
  unfold tokens. rewrite Hs, Hr. simpl in Et. rewrite Hc in Et.
  destruct (take_word None r0). by injection Et as <- <-.
Qed.

Lemma sscanf_s_s_tokens s :
  sscanf_s_s s = (tokens s !! 0%nat, tokens s !! 1%nat).
Proof.
  unfold sscanf_s_s. pose proof (scan_s_tokens s) as H1.
  destruct (scan_s None s) as [[a r1]|]; [|by rewrite H1].
  pose proof (scan_s_tokens (skip_space r1)) as H2.
  rewrite tokens_skip_space in H2. rewrite H1.
  destruct (scan_s None (skip_space r1)) as [[b r2]|]; by rewrite H2.
Qed.

Lemma parse_request_method_path raw bufs :
  contains CRLF (c_str raw) ->
  method (snd (parse_request raw bufs))
    = default (method bufs) (tokens (c_str raw) !! 0%nat)
  /\ path (snd (parse_request raw bufs))
    = default (path bufs) (tokens (c_str raw) !! 1%nat).
Proof.
  intros [k Hk]%strstr_contains. unfold parse_request.
  rewrite Hk, sscanf_s_s_tokens.
  by destruct (strstr (c_str raw) CRLFCRLF).
Qed.

(** The body is everything that follows the first blank line, whatever
    its length. *)
Lemma parse_request_body raw bufs off :
  strstr (c_str raw) CRLFCRLF = Some off ->
  body (snd (parse_request raw bufs)) = drop (off + 4) (c_str raw).
Proof.
  intros H. unfold parse_request.
  destruct (strstr (c_str raw) CRLF) as [k|] eqn:Ek.
  - destruct (sscanf_s_s (c_str raw)) as [m p]. by rewrite H.
  - exfalso. apply strstr_None in Ek. apply Ek.
    destruct (strstr_Some _ _ _ H) as (post & Hs & _).
    exists (take off (c_str raw)), (CRLF ++ post).
    by rewrite Hs at 1.
Qed.

(** C5, as the code has it.  [parse_request] either fails or returns 0
    with, in [path], the second white-space-delimited token of the string
    when there is one and what the caller had put there otherwise; its
    first character is not examined. *)
Theorem parse_request_path_is_second_token raw bufs :
  fst (parse_request raw bufs) = -1
  \/ (fst (parse_request raw bufs) = 0
      /\ path (snd (parse_request raw bufs))
         = default (path bufs) (tokens (c_str raw) !! 1%nat)).
Proof.
  rewrite parse_request_rc.
  destruct (strstr (c_str raw) CRLF) as [k|] eqn:Ek; [right | by left].
  split; [done|]. apply parse_request_method_path.
  apply strstr_contains. eauto.
Qed.

(** C5 as written fails: a request line whose second token is [foo] is
    accepted, and [foo] is the path. *)
Lemma parse_request_path_without_slash :
  let raw := lit "GET foo" ++ CRLF in
  ~ (fst (parse_request raw zeroed) = -1
     \/ exists rest, path (snd (parse_request raw zeroed)) = "/"%char :: rest).
Proof.
  intros raw [H | [rest H]]; vm_compute in H; discriminate.
Qed.

Lemma fields_app_space a rest fs :
  fields rest = [] :: fs -> fields (a ++ rest) = fields a ++ fs.
Proof.
  intros Hr. induction a as [|c a IH]; simpl; [done|].
  rewrite IH. destruct (isspace c); [done|].
  destruct (fields a) as [|g gs] eqn:E; [|done].
  by destruct a as [|c' a']; simpl in E; repeat case_match.
Qed.

(** The tokens of a string cut in front of a white-space character are
    those of the two parts. *)
Lemma tokens_app_space a rest :
  rest = [] \/ (exists c r, rest = c :: r /\ isspace c = true) ->
  tokens (a ++ rest) = tokens a ++ tokens rest.
Proof.
  intros Hrest.
  assert (exists fs, fields rest = [] :: fs) as [fs Hf].
  { destruct Hrest as [->|(c & r & -> & Hc)]; simpl; [eauto|].
    rewrite Hc. eauto. }
  unfold tokens. by rewrite (fields_app_space _ _ _ Hf), Hf, List.filter_app.
Qed.

(** With a CRLF in it, a string is its first line followed by the rest,
    and the rest begins with white space. *)
Lemma first_line_split s :
  contains CRLF s ->
  s = first_line s ++ after_first_line s
  /\ tokens s = tokens (first_line s) ++ tokens (after_first_line s).
Proof.
  intros [k Hk]%strstr_contains. unfold first_line, after_first_line.
  rewrite Hk. split; [by rewrite take_drop|].
  rewrite <- (take_drop k s) at 1. apply tokens_app_space. right.
  destruct (strstr_Some _ _ _ Hk) as (post & Hs & _).
  exists CR, (LF :: post). split; [|done].
  assert (Hl : length s = length (take k s ++ CRLF ++ post))
    by by rewrite <- Hs.
  rewrite length_app, length_take in Hl. simpl in Hl.
  rewrite Hs at 1. rewrite drop_app_length'; [done|].
  rewrite length_take. lia.
Qed.

(** C6, as the code has it.  A first line with fewer than two
    white-space-delimited tokens does not make [parse_request] fail: it
    returns -1 exactly when the string holds no CRLF and 0 otherwise.  In
    the latter case [method] and [path] are the first two tokens of the
    whole string, so that [path] is not taken from the first line: it is
    the next token on the lines after it, or what the caller had put there
    when there is none. *)
Theorem parse_request_first_line_few_tokens raw bufs :
  (length (tokens (first_line (c_str raw))) < 2)%nat ->
  (fst (parse_request raw bufs) = -1 <-> ~ contains CRLF (c_str raw))
  /\ (contains CRLF (c_str raw) ->
      fst (parse_request raw bufs) = 0
      /\ method (snd (parse_request raw bufs))
         = default (method bufs)
             ((tokens (first_line (c_str raw))
               ++ tokens (after_first_line (c_str raw))) !! 0%nat)
      /\ path (snd (parse_request raw bufs))
         = default (path bufs)
             (tokens (after_first_line (c_str raw))
              !! (1 - length (tokens (first_line (c_str raw))))%nat)).
Proof.
  intros Hlen. split.
  - rewrite parse_request_rc, strstr_contains.
    destruct (strstr (c_str raw) CRLF) as [k|]; split; try done;
      try (intros []; done); eauto.
  - intros Hc.
    destruct (parse_request_method_path raw bufs Hc) as [Hm Hp].
    destruct (first_line_split _ Hc) as [_ Ht].
    split.
    { rewrite parse_request_rc.
      by destruct (proj1 (strstr_contains _ _) Hc) as [k ->]. }
    rewrite Hm, Hp, Ht. split; [done|].
    destruct (tokens (first_line (c_str raw))) as [|a [|b l]];
      simpl in *; [done | done | lia].
Qed.

Lemma parse_request_first_line_few_tokens_witness :
  tokens (first_line (c_str two_line_request)) = [lit "GET"]
  /\ parse_request two_line_request zeroed
     = (0, {| method := lit "GET"; path := lit "/next"; body := [] |})
  /\ fst (parse_request two_line_request zeroed) = 0
  /\ method (snd (parse_request two_line_request zeroed))
     = default []
         ((tokens (first_line (c_str two_line_request))
           ++ tokens (after_first_line (c_str two_line_request))) !! 0%nat)
  /\ path (snd (parse_request two_line_request zeroed))
     = default []
         (tokens (after_first_line (c_str two_line_request))
          !! (1 - length (tokens (first_line (c_str two_line_request))))%nat).
Proof.
  split; [reflexivity|]. split; [reflexivity|].
  apply (parse_request_first_line_few_tokens two_line_request zeroed).
  - vm_compute. lia.
  - exists (lit "GET"), (lit "/next" ++ CRLF). reflexivity.
Defined.

(** C6 as written fails: the first line of this request has one token and
    the request is accepted. *)
Lemma parse_request_one_token_accepted :
  let raw := lit "GET" ++ CRLF in
  ~ ((length (tokens (first_line (c_str raw))) < 2)%nat ->
     fst (parse_request raw zeroed) = -1).
Proof.
  intros raw H. assert (Hlt : (length (tokens (first_line (c_str raw))) < 2)%nat).
  { vm_compute. lia. }
  apply H in Hlt. vm_compute in Hlt. discriminate.
Qed.

(** ** The connection table *)

Lemma is_active_true c : is_active c = true <-> active c <> 0.
Proof.
  unfold is_active. destruct (Z.eqb_spec (active c) 0); simpl; split; done.
Qed.

Lemma is_active_false c : is_active c = false <-> active c = 0.
Proof.
  unfold is_active. destruct (Z.eqb_spec (active c) 0); simpl; split; done.
Qed.

Lemma released_inactive c : active c = 0 -> released c = c.
Proof. destruct c; simpl; intros ->; done. Qed.

(** [find_free_slot] returns the first index whose slot is free. *)
Lemma scan_free_found cs i (k : nat) :
  scan_free cs i = Z.of_nat k ->
  exists c, cs !! (k - i)%nat = Some c /\ active c = 0 /\ (i <= k)%nat
            /\ forall j c', (j < k - i)%nat -> cs !! j = Some c' -> active c' <> 0.
Proof.
  revert i; induction cs as [|c cs IH]; intros i; simpl; [lia|].
  destruct (is_active c) eqn:E.
  - intros H. destruct (IH _ H) as (c0 & Hl & Ha & Hle & Hbefore).
    exists c0. replace (k - i)%nat with (S (k - S i)) by lia.
    repeat split; [done | done | lia |].
    intros [|j] c' Hj; simpl.
    + intros [= <-]. by apply is_active_true.
    + apply Hbefore. lia.
  - intros H. assert (k = i) as -> by lia. exists c.
    rewrite Nat.sub_diag. repeat split; [by apply is_active_false | lia |].
    intros j c' Hj. lia.
Qed.

Lemma scan_free_range cs i : scan_free cs i = -1 \/ 0 <= scan_free cs i.
Proof.
  revert i; induction cs as [|c cs IH]; intros i; simpl; [by left|].
  destruct (is_active c); [apply IH | right; lia].
Qed.

Lemma scan_free_none cs i :
  Forall (fun c => active c <> 0) cs -> scan_free cs i = -1.
Proof.
  intros H; revert i; induction H as [|c cs Hc _ IH]; intros i; simpl; [done|].
  apply is_active_true in Hc. rewrite Hc. apply IH.
Qed.

(** C1. With every one of the hundred slots active, a call of
    [accept_connection] whose [accept] succeeded finds no free slot: it
    closes the new descriptor, returns -1, and leaves the table,
    [conn_count] and the workers as they were. *)
Theorem accept_connection_table_full a st :
  table_ok st ->
  Forall (fun c => active c <> 0) (connections st) ->
  0 <= client_socket a ->
  find_free_slot st = -1
  /\ accept_connection a st
     = (-1, {| connections := connections st;
               conn_count := conn_count st;
               workers := workers st;
               trace := trace st ++ [EvClose (client_socket a)] |}).
Proof.
  intros _ Hfull Hfd.
  assert (Hnone : find_free_slot st = -1) by by apply scan_free_none.
  split; [done|]. unfold accept_connection. rewrite Hnone.
  destruct (Z.ltb_spec (client_socket a) 0); [lia | done].
Qed.

Lemma accept_connection_table_full_witness :
  conn_count full_state = 100
  /\ find_free_slot full_state = -1
  /\ accept_connection (client 200) full_state
     = (-1, {| connections := connections full_state;
               conn_count := conn_count full_state;
               workers := workers full_state;
               trace := trace full_state ++ [EvClose 200] |}).
Proof.
  split; [reflexivity|].
  apply (accept_connection_table_full (client 200) full_state).
  - reflexivity.
  - apply (bool_decide_unpack _). vm_compute. exact I.
  - simpl. lia.
Defined.

Lemma close_loop_table cs : fst (close_loop cs) = released <$> cs.
Proof.
  induction cs as [|c cs IH]; simpl; [done|].
  destruct (close_loop cs) as [cs' ev]. simpl in IH. subst cs'.
  destruct (is_active c) eqn:E; simpl; [done|].
  apply is_active_false in E. by rewrite released_inactive.
Qed.

Lemma close_all_connections_table st :
  connections (close_all_connections st) = released <$> connections st.
Proof.
  unfold close_all_connections. rewrite <- close_loop_table.
  by destruct (close_loop (connections st)).
Qed.

(** C8. After [close_all_connections], [conn_count] is 0 and every slot
    that was active has [active = 0], its other fields being kept. *)
Theorem close_all_connections_clears st i c :
  connections st !! i = Some c ->
  active c <> 0 ->
  conn_count (close_all_connections st) = 0
  /\ connections (close_all_connections st) !! i = Some (released c)
  /\ active (released c) = 0.
Proof.
  intros Hi _. split; [|split; [|done]].
  - unfold close_all_connections. by destruct (close_loop (connections st)).
  - by rewrite close_all_connections_table, list_lookup_fmap, Hi.
Qed.

Lemma close_all_connections_clears_witness :
  active_count one_client = 1
  /\ conn_count (close_all_connections one_client) = 0
  /\ connections (close_all_connections one_client) !! 0%nat
     = Some {| socket := 4; client_ip := Some (lit "10.0.0.1");
               authenticated := 0; username := []; thread := 4;
               active := 0 |}
  /\ active_count (close_all_connections one_client) = 0.
Proof.
  split; [reflexivity|].
  destruct (close_all_connections_clears one_client 0
              {| socket := 4; client_ip := Some (lit "10.0.0.1");
                 authenticated := 0; username := []; thread := 4;
                 active := 1 |}) as (H1 & H2 & _).
  - reflexivity.
  - simpl. lia.
  - split; [exact H1|]. split; [exact H2 | reflexivity].
Defined.

(** No slot is active after [close_all_connections]. *)
Lemma close_all_connections_none_active st :
  Forall (fun c => active c = 0) (connections (close_all_connections st)).
Proof.
  rewrite close_all_connections_table. apply Forall_fmap, Forall_true. done.
Qed.

(** A successful [accept_connection] takes a free slot, fills in the
    descriptor, the peer address and [active], clears [authenticated] and
    adds one to [conn_count]; [username] is not assigned. *)
Lemma accept_connection_slot a st slot st' :
  accept_connection a st = (slot, st') ->
  0 <= slot ->
  exists c,
    connections st !! Z.to_nat slot = Some c
    /\ active c = 0
    /\ connections st' !! Z.to_nat slot
       = Some {| socket := client_socket a; client_ip := Some (peer a);
                 authenticated := 0; username := username c;
                 thread := default (thread c) (created a); active := 1 |}
    /\ (forall j, j <> Z.to_nat slot ->
                  connections st' !! j = connections st !! j)
    /\ conn_count st' = conn_count st + 1.
Proof.
  unfold accept_connection.
  destruct (Z.ltb_spec (client_socket a) 0); [intros [= <- <-]; lia|].
  destruct (Z.ltb_spec (find_free_slot st) 0); [intros [= <- <-]; lia|].
  intros [= <- <-] _.
  destruct (scan_free_found (connections st) 0 (Z.to_nat (find_free_slot st)))
    as (c & Hc & Hfree & _).
  { unfold find_free_slot in *. lia. }
  rewrite Nat.sub_0_r in Hc. exists c. simpl.
  split; [done|]. split; [done|]. split; [|split; [|done]].
  - by rewrite list_lookup_alter_eq, Hc.
  - intros j Hj. by rewrite list_lookup_alter_ne.
Qed.

(** The flag is cleared by every successful call. *)
Lemma accept_connection_clears_authenticated a st slot st' :
  accept_connection a st = (slot, st') ->
  0 <= slot ->
  authenticated <$> connections st' !! Z.to_nat slot = Some 0.
Proof.
  intros H Hs. destruct (accept_connection_slot _ _ _ _ H Hs)
    as (c & _ & _ & -> & _). done.
Qed.

(** C7: the user name of the previous connection survives the reuse of
    its slot.  A client logs in on slot 0 and disconnects; the next call
    of [accept_connection] returns slot 0 with [authenticated] cleared and
    the user name of the first client still in [username], where
    [dump_connections] reads it for the new client. *)
Theorem accept_connection_keeps_username :
  exists st0 st1,
    run login_then_leave initial_state = Some st0
    /\ accept_connection (client 5) st0 = (0, st1)
    /\ authenticated <$> connections st1 !! 0%nat = Some 0
    /\ active <$> connections st1 !! 0%nat = Some 1
    /\ username <$> connections st1 !! 0%nat = Some long_name
    /\ long_name <> []
    /\ dump_connections st1
       = Some [EvPrintf (lit "=== Active Connections ===" ++ [LF]);
               EvPrintf (lit "  [0] 10.0.0.1 - auth: 0 - user: "
                         ++ long_name ++ [LF]);
               EvPrintf (lit "==========================" ++ [LF])].
Proof.
  eexists; eexists.
  split; [vm_compute; reflexivity|].
  split; [vm_compute; reflexivity|].
  repeat split; done.
Qed.

(** When [accept] itself fails nothing is touched. *)
Lemma accept_connection_accept_failed a st :
  client_socket a < 0 -> accept_connection a st = (-1, st).
Proof.
  intros H. unfold accept_connection.
  by destruct (Z.ltb_spec (client_socket a) 0); [|lia].
Qed.

(** C2: [conn_count] and the number of active slots part when a worker
    leaves after [close_all_connections].  The shutdown clears the slot
    and sets the counter to 0; the worker of that slot then runs its
    release block, which decrements the counter whatever [active] is. *)
Theorem conn_count_after_shutdown :
  exists st,
    run shutdown_then_exit initial_state = Some st
    /\ reachable st
    /\ conn_count st = -1
    /\ active_count st = 0
    /\ conn_count st <> active_count st.
Proof.
  eexists. split; [vm_compute; reflexivity|].
  split; [exists shutdown_then_exit; vm_compute; reflexivity|].
  repeat split; done.
Qed.

(** The same slip seen from a client: with one connection open the
    server reports minus one. *)
Example status_reports_negative_count :
  exists st,
    run status_after_shutdown initial_state = Some st
    /\ active_count st = 1
    /\ conn_count st = -1
    /\ last (trace st)
       = Some (EvSend 7 (Some (lit "HTTP/1.1 200 OK" ++ CRLFCRLF
                               ++ lit "Server running, connections: -1"))).
Proof.
  eexists. split; [vm_compute; reflexivity|]. repeat split; done.
Qed.

(** *** The counter without shutdown

    As long as [close_all_connections] is not called, [conn_count] is the
    number of active slots: every live worker owns an active slot, so each
    release matches one acquisition. *)

Section CountInvariant.

Local Lemma actives_cons c cs : active_slots (c :: cs) = weight c + active_slots cs.
Proof.
  unfold active_slots, weight. rewrite filter_cons.
  destruct (decide (is_active c = true)) as [->|H]; simpl; [lia|].
  destruct (is_active c); [done | lia].
Qed.

Local Lemma actives_insert (cs : list Connection) (i : nat) c c' :
  cs !! i = Some c ->
  active_slots (<[i:=c']> cs) = active_slots cs - weight c + weight c'.
Proof.
  revert i; induction cs as [|x cs IH]; intros [|i] H; simpl in H;
    try done.
  - injection H as H. subst x. simpl. rewrite !actives_cons. lia.
  - simpl. rewrite !actives_cons, (IH i H). lia.
Qed.

Local Lemma alter_is_insert (f : Connection -> Connection)
    (cs : list Connection) (i : nat) c :
  cs !! i = Some c -> alter f i cs = <[i:=f c]> cs.
Proof.
  revert i; induction cs as [|x cs IH]; intros [|i] H; simpl in H;
    try done.
  - injection H as H. by subst x.
  - simpl. f_equal. by apply IH.
Qed.

Lemma count_inv_initial : count_inv initial_state.
Proof.
  split; [reflexivity|]. split; [constructor|].
  intros s Hs. by apply elem_of_nil in Hs.
Qed.

Lemma remove_worker_spec slot ws :
  NoDup ws ->
  NoDup (remove_worker slot ws)
  /\ forall s, s ∈ remove_worker slot ws <-> s ∈ ws /\ s <> slot.
Proof.
  induction 1 as [|x ws Hx Hnd [IH1 IH2]]; simpl.
  - split; [constructor|]. intros s. rewrite elem_of_nil. tauto.
  - destruct (Nat.eqb_spec x slot) as [->|Hne].
    + split; [done|]. intros s. rewrite elem_of_cons. split.
      * intros Hs. split; [by right|]. by intros ->.
      * by intros [[->|Hs] Hn].
    + split.
      * constructor; [|done]. rewrite IH2. tauto.
      * intros s. rewrite !elem_of_cons, IH2. split.
        -- intros [->|[Hs Hn]]; [by split; [left|] | by split; [right|]].
        -- intros [[->|Hs] Hn]; [by left | by right].
Qed.

(** No route touches [active]. *)
Lemma route_active w n c r : active (h_conn (route w n c r)) = active c.
Proof.
  unfold route, serve_file, login, exec, upload, reply, no_reply.
  repeat case_match; done.
Qed.

Lemma slot_active_insert_other st s i c cs' :
  s <> i ->
  cs' = <[i:=c]> (connections st) ->
  from_option is_active false (cs' !! s) = slot_active s st.
Proof. intros Hne ->. unfold slot_active. by rewrite list_lookup_insert_ne. Qed.

Lemma count_inv_accept a st :
  count_inv st -> count_inv (snd (accept_connection a st)).
Proof.
  intros (Hcount & Hnd & Hlive).
  destruct (accept_connection a st) as [slot st'] eqn:E. simpl.
  destruct (Z.ltb_spec slot 0) as [Hneg|Hpos].
  - (* no slot taken: the table, the counter and the workers are kept *)
    unfold accept_connection in E.
    destruct (client_socket a <? 0); [by injection E as <- <-|].
    destruct (find_free_slot st <? 0) eqn:Ef; [by injection E as <- <-|].
    injection E as <- <-. apply Z.ltb_ge in Ef. lia.
  - destruct (accept_connection_slot _ _ _ _ E Hpos)
      as (c & Hc & Hfree & Hnew & Hother & Hcnt).
    set (k := Z.to_nat slot) in *.
    assert (Hk : k ∉ workers st).
    { intros Hin. apply Hlive in Hin. unfold slot_active in Hin.
      rewrite Hc in Hin. simpl in Hin.
      apply is_active_true in Hin. done. }
    unfold accept_connection in E.
    destruct (client_socket a <? 0); [injection E as <- <-; lia|].
    destruct (find_free_slot st <? 0); [injection E as <- <-; lia|].
    injection E as Hs <-. unfold count_inv, active_count, slot_active.
    simpl. rewrite Hs. fold k.
    rewrite (alter_is_insert _ _ _ _ Hc).
    split; [|split].
    + rewrite (actives_insert _ _ _ _ Hc). unfold weight at 1 2.
      apply is_active_false in Hfree. rewrite Hfree. simpl.
      unfold active_count in Hcount. lia.
    + destruct (created a); [|by rewrite app_nil_r].
      apply NoDup_app. split; [done|]. split; [|apply NoDup_singleton].
      intros x Hx ->%list_elem_of_singleton. done.
    + intros s Hs'. destruct (decide (s = k)) as [->|Hne].
      * rewrite list_lookup_insert_eq; [done|]. by eapply lookup_lt_Some.
      * rewrite list_lookup_insert_ne by done. apply Hlive.
        destruct (created a); [|by rewrite app_nil_r in Hs'].
        apply elem_of_app in Hs' as [?|?%list_elem_of_singleton]; done.
Qed.

Lemma count_inv_serve slot w data st st' :
  worker_iteration w slot data st = Some (Continue, st') ->
  count_inv st -> count_inv st'.
Proof.
  unfold worker_iteration.
  destruct (connections st !! slot) as [conn|] eqn:Hc; [|done].
  destruct data as [|d data]; [done|].
  destruct (recv_buffer (d :: data)) as [buffer|]; [|done].
  destruct (parse_request buffer zeroed) as [rc req].
  destruct (rc =? 0); [|by intros [= <-]].
  destruct (request_fits req); [|done].
  intros [= <-] (Hcount & Hnd & Hlive).
  unfold count_inv, active_count, slot_active in *. simpl.
  pose proof (route_active w (conn_count st) conn req) as Hact.
  assert (Hw : is_active (h_conn (route w (conn_count st) conn req))
               = is_active conn).
  { unfold is_active. by rewrite Hact. }
  split; [|split; [done|]].
  - rewrite (actives_insert _ _ _ _ Hc). unfold weight. rewrite Hw.
    lia.
  - intros s Hs. destruct (decide (s = slot)) as [->|Hne].
    + rewrite list_lookup_insert_eq by by eapply lookup_lt_Some.
      simpl. rewrite Hw. specialize (Hlive _ Hs). by rewrite Hc in Hlive.
    + rewrite list_lookup_insert_ne by done. by apply Hlive.
Qed.

Lemma count_inv_finish slot st :
  slot ∈ workers st -> count_inv st -> count_inv (worker_cleanup slot st).
Proof.
  intros Hin (Hcount & Hnd & Hlive). pose proof (Hlive _ Hin) as Hact.
  unfold slot_active in Hact. unfold worker_cleanup.
  destruct (connections st !! slot) as [conn|] eqn:Hc; [|done].
  simpl in Hact.
  destruct (remove_worker_spec slot _ Hnd) as [Hnd' Hmem].
  unfold count_inv, active_count, slot_active in *. simpl.
  split; [|split; [done|]].
  - rewrite (actives_insert _ _ _ _ Hc). unfold weight. rewrite Hact.
    simpl. lia.
  - intros s [Hs Hne]%Hmem. rewrite list_lookup_insert_ne by done.
    by apply Hlive.
Qed.

Lemma count_inv_run ops st st' :
  CloseAll ∉ ops ->
  run ops st = Some st' ->
  count_inv st -> count_inv st'.
Proof.
  revert st; induction ops as [|o ops IH]; intros st Hno; simpl.
  - by intros [= <-].
  - apply not_elem_of_cons in Hno as [Ho Hno].
    destruct (step o st) as [st1|] eqn:Es; [|done]. simpl.
    intros Hrun Hinv. apply (IH st1 Hno Hrun).
    destruct o as [a|slot w data|slot|]; simpl in Es.
    + injection Es as <-. by apply count_inv_accept.
    + destruct (live slot st); [|done].
      destruct (worker_iteration w slot data st) as [[[|] st2]|] eqn:Ew;
        try done.
      injection Es as <-. by eapply count_inv_serve.
    + destruct (live slot st) eqn:El; [|done]. injection Es as <-.
      apply count_inv_finish; [|done]. by apply bool_decide_eq_true in El.
    + done.
Qed.

(** Without a shutdown the counter is exact in every state reached. *)
Lemma conn_count_exact_without_close_all ops st :
  CloseAll ∉ ops ->
  run ops initial_state = Some st ->
  conn_count st = active_count st.
Proof.
  intros Hno Hrun.
  by destruct (count_inv_run _ _ _ Hno Hrun count_inv_initial).
Qed.

End CountInvariant.

(** ** The worker *)

Example serve_status :
  worker_iteration bare_world 0 (lit "GET /status" ++ CRLFCRLF) one_client
  = Some (Continue,
          emit [EvSend 4 (Some (lit "HTTP/1.1 200 OK" ++ CRLFCRLF
                                ++ lit "Server running, connections: 1"))]
               one_client).
Proof. reflexivity. Qed.

Example serve_unknown_method :
  worker_iteration bare_world 0 (lit "PUT /x" ++ CRLFCRLF) one_client
  = Some (Continue,
          emit [EvSend 4 (Some (lit "HTTP/1.1 405 Method Not Allowed"
                                ++ CRLFCRLF))]
               one_client).
Proof. reflexivity. Qed.

(** A worker run from entry to return: one request, then the peer
    closes. *)
Example handle_connection_one_request :
  handle_connection 0 [(bare_world, lit "GET /nothing" ++ CRLFCRLF)] one_client
  = Some {| connections :=
              <[0%nat := {| socket := 4; client_ip := None;
                            authenticated := 0; username := [];
                            thread := 4; active := 0 |}]>
                (connections initial_state);
            conn_count := 0;
            workers := [];
            trace := trace one_client
                     ++ [EvSend 4 (Some (lit "HTTP/1.1 404 Not Found"
                                         ++ CRLFCRLF ++ lit "Not found"));
                         EvClose 4] |}.
Proof. reflexivity. Qed.

(** C3: the body is copied whole.  For this request of 1035 bytes, which
    holds the blank line, [parse_request] succeeds and its [strcpy] stores
    1025 bytes, one more than the [body] array of the worker holds; the
    pass of the worker's loop over it has no defined outcome. *)
Theorem parse_request_body_overrun :
  (length long_body_request <= RECV_BUFFER_SIZE)%nat
  /\ contains CRLFCRLF (c_str long_body_request)
  /\ fst (parse_request long_body_request zeroed) = 0
  /\ body (snd (parse_request long_body_request zeroed))
     = replicate 1024 "A"%char
  /\ stored (body (snd (parse_request long_body_request zeroed))) = 1025%nat
  /\ (BODY_SIZE < stored (body (snd (parse_request long_body_request zeroed))))%nat
  /\ forall w, worker_iteration w 0 long_body_request one_client = None.
Proof.
  split; [vm_compute; lia|].
  split; [exists (lit "POST /x"), (replicate 1024 "A"%char); reflexivity|].
  split; [reflexivity|].
  split; [reflexivity|].
  split; [reflexivity|].
  split; [vm_compute; lia|].
  intros w. vm_compute. reflexivity.
Qed.

(** The copy stays inside [body] exactly when fewer than 1024 characters
    follow the blank line. *)
Lemma parse_request_body_fits raw bufs off :
  strstr (c_str raw) CRLFCRLF = Some off ->
  (stored (body (snd (parse_request raw bufs))) <= BODY_SIZE)%nat
  <-> (length (c_str raw) - (off + 4) < 1024)%nat.
Proof.
  intros H. rewrite (parse_request_body _ _ _ H). unfold stored, BODY_SIZE.
  rewrite length_drop. lia.
Qed.

(** Whenever 1024 characters or more follow the blank line of what was
    received, the pass of the loop writes past the end of [body]. *)
Lemma worker_iteration_body_overrun w slot data st buffer off :
  recv_buffer data = Some buffer ->
  strstr (c_str buffer) CRLFCRLF = Some off ->
  (1024 <= length (c_str buffer) - (off + 4))%nat ->
  worker_iteration w slot data st = None.
Proof.
  intros Hbuf Hsep Hlen. destruct data as [|d data].
  { injection Hbuf as <-. vm_compute in Hsep. discriminate. }
  unfold worker_iteration. destruct (connections st !! slot); [|done].
  rewrite Hbuf.
  pose proof (parse_request_body_fits buffer zeroed off Hsep) as Hfit.
  pose proof (parse_request_rc buffer zeroed) as Hrc.
  assert (Hcr : is_Some (strstr (c_str buffer) CRLF)).
  { apply strstr_contains.
    destruct (strstr_Some _ _ _ Hsep) as (post & Hs & _).
    exists (take off (c_str buffer)), (CRLF ++ post). by rewrite Hs at 1. }
  destruct Hcr as [k Hk]. rewrite Hk in Hrc.
  destruct (parse_request buffer zeroed) as [rc req]. simpl in *. subst rc.
  simpl. unfold request_fits.
  destruct (Nat.leb_spec (stored (body req)) BODY_SIZE) as [Hle|Hgt].
  - apply Hfit in Hle. lia.
  - by rewrite andb_false_r.
Qed.

(** C4, as the code has it.  When [parse_request] fails on what was
    received, the pass of the loop changes nothing: the socket stays open,
    no route is taken, nothing is sent, and the worker goes back to
    [recv] for the next request. *)
Theorem malformed_request_keeps_reading w slot data st conn buffer rest :
  connections st !! slot = Some conn ->
  active conn <> 0 ->
  data <> [] ->
  recv_buffer data = Some buffer ->
  fst (parse_request buffer zeroed) = -1 ->
  worker_iteration w slot data st = Some (Continue, st)
  /\ worker_loop slot ((w, data) :: rest) st = worker_loop slot rest st.
Proof.
  intros Hc Hact Hdata Hbuf Hrc.
  assert (Hit : worker_iteration w slot data st = Some (Continue, st)).
  { unfold worker_iteration. rewrite Hc, Hbuf.
    destruct data as [|d data]; [done|].
    destruct (parse_request buffer zeroed) as [rc req].
    simpl in Hrc. by subst rc. }
  split; [done|].
  apply is_active_true in Hact.
  change (worker_loop slot ((w, data) :: rest) st)
    with (match connections st !! slot with
          | None => None
          | Some conn =>
            if is_active conn then
              match worker_iteration w slot data st with
              | None => None
              | Some (Break, st') => Some st'
              | Some (Continue, st') => worker_loop slot rest st'
              end
            else Some st
          end).
  by rewrite Hc, Hact, Hit.
Qed.

Lemma malformed_request_keeps_reading_witness :
  worker_iteration bare_world 0 (lit "hello") one_client
  = Some (Continue, one_client)
  /\ worker_loop 0 [(bare_world, lit "hello")] one_client
     = worker_loop 0 [] one_client.
Proof.
  apply (malformed_request_keeps_reading bare_world 0 (lit "hello")
           one_client
           {| socket := 4; client_ip := Some (lit "10.0.0.1");
              authenticated := 0; username := []; thread := 4;
              active := 1 |}
           (lit "hello" ++ replicate 2043 NUL) []).
  - reflexivity.
  - simpl. lia.
  - discriminate.
  - reflexivity.
  - reflexivity.
Defined.

(** C4 as written fails: after a request without CRLF on the connection
    of descriptor 4, nothing has been sent on that descriptor. *)
Lemma malformed_request_gets_no_response :
  fst (parse_request (lit "hello") zeroed) = -1
  /\ ~ exists st' resp,
        worker_iteration bare_world 0 (lit "hello") one_client
        = Some (Continue, st')
        /\ EvSend 4 resp ∈ trace st'.
Proof.
  split; [reflexivity|].
  intros (st' & resp & Hit & Hin).
  vm_compute in Hit. injection Hit as <-.
  unfold one_client in Hin. simpl in Hin.
  apply list_elem_of_singleton in Hin. discriminate.
Qed.

Lemma length_take_le {A} (n : nat) (l : list A) : (length (take n l) <= n)%nat.
Proof. rewrite length_take. lia. Qed.

(** C10. A GET whose path begins with /file/ and whose file opens reads
    at most 2047 bytes of it; the response carries, as Content-Length,
    the number of bytes read, followed by what was read (as a string).
    Whatever the file holds beyond 2047 bytes is left out. *)
Theorem get_file_content_length w count c r rest file :
  method r = lit "GET" ->
  path r = lit "/file/" ++ rest ->
  fopen_r w (lit "/var/data/" ++ rest) = Some file ->
  let content := take 2047 file in
  (length content <= 2047)%nat
  /\ length content = Nat.min 2047 (length file)
  /\ route w count c r
     = {| h_conn := c;
          h_response :=
            Some (lit "HTTP/1.1 200 OK" ++ CRLF ++ lit "Content-Length: "
                  ++ print_zu (length content) ++ CRLFCRLF ++ c_str content);
          h_events := [] |}.
Proof.
  intros Hm Hp Hf content.
  split; [apply length_take_le|]. split; [apply length_take|].
  unfold route, serve_file. rewrite Hm, Hp.
  change (strcmp0 (lit "GET") (lit "GET")) with true.
  change (strncmp0 (lit "/file/" ++ rest) (lit "/file/") 6) with true.
  change (lit "/var/data" ++ drop 5 (lit "/file/" ++ rest))
    with (lit "/var/data/" ++ rest).
  by rewrite Hf.
Qed.

Lemma c_str_length s : (length (c_str s) <= length s)%nat.
Proof.
  induction s as [|c s IH]; simpl; [done|].
  destruct (Ascii.eqb c NUL); simpl; lia.
Qed.

Lemma print_zu_digits n : (n <= 2047)%nat -> (length (print_zu n) <= 4)%nat.
Proof.
  intros Hn.
  assert (H : forallb (fun k => (length (print_zu k) <=? 4)%nat) (seq 0 2048)
              = true) by (vm_compute; reflexivity).
  rewrite forallb_forall in H. apply Nat.leb_le, H, in_seq. lia.
Qed.

(** The response to a file request stays inside the 4096 bytes of
    [response]. *)
Lemma serve_file_response_fits w c p resp :
  h_response (serve_file w c p) = Some resp ->
  (stored resp <= RESPONSE_SIZE)%nat.
Proof.
  unfold serve_file, stored, RESPONSE_SIZE, reply.
  destruct (fopen_r w _) as [file|]; cbn [h_response];
    intros H; apply (inj Some) in H; subst resp.
  - pose proof (length_take_le (CONTENT_SIZE - 1) file) as Hlen.
    pose proof (c_str_length (fread (CONTENT_SIZE - 1) file)) as Hstr.
    pose proof (print_zu_digits _ Hlen) as Hdig.
    rewrite !length_app.
    change (length (lit "HTTP/1.1 200 OK")) with 15%nat.
    change (length (lit "Content-Length: ")) with 16%nat.
    change (length CRLF) with 2%nat. change (length CRLFCRLF) with 4%nat.
    unfold fread, CONTENT_SIZE in *. lia.
  - vm_compute. lia.
Qed.

Lemma get_file_content_length_witness :
  length big_file = 3000%nat
  /\ parse_request big_file_request zeroed = (0, big_file_parsed)
  /\ h_response (route big_file_world 1 zero_connection big_file_parsed)
     = Some (lit "HTTP/1.1 200 OK" ++ CRLF ++ lit "Content-Length: 2047"
             ++ CRLFCRLF ++ replicate 2047 "x"%char).
Proof.
  split; [reflexivity|]. split; [reflexivity|].
  destruct (get_file_content_length big_file_world 1 zero_connection
              big_file_parsed (lit "big") big_file) as (_ & _ & H).
  - reflexivity.
  - reflexivity.
  - reflexivity.
  - rewrite H. reflexivity.
Defined.

(** * Further properties of connection.c *)

(** ** [find_free_slot] and [accept_connection] *)

Lemma scan_free_all_active cs i :
  scan_free cs i = -1 -> Forall (fun c => active c <> 0) cs.
Proof.
  revert i; induction cs as [|c cs IH]; intros i; simpl; [done|].
  destruct (is_active c) eqn:E; [|lia].
  intros H. constructor; [by apply is_active_true | by eapply IH].
Qed.

Lemma scan_free_bounds cs i :
  scan_free cs i = -1
  \/ Z.of_nat i <= scan_free cs i < Z.of_nat (i + length cs).
Proof.
  revert i; induction cs as [|c cs IH]; intros i; simpl; [by left|].
  destruct (is_active c); [|right; lia].
  destruct (IH (S i)) as [->|H]; [by left | right; lia].
Qed.

(** X1. [find_free_slot] returns -1 exactly when every slot is active;
    otherwise it returns the lowest index whose slot is free, an index of
    the table. *)
Theorem find_free_slot_lowest_free st :
  (find_free_slot st = -1
   <-> Forall (fun c => active c <> 0) (connections st))
  /\ (find_free_slot st <> -1 ->
      exists (k : nat) c,
        find_free_slot st = Z.of_nat k
        /\ (k < length (connections st))%nat
        /\ connections st !! k = Some c
        /\ active c = 0
        /\ forall j c', (j < k)%nat ->
                        connections st !! j = Some c' -> active c' <> 0).
Proof.
  split.
  - split; [apply scan_free_all_active | apply scan_free_none].
  - intros Hne. unfold find_free_slot in *.
    destruct (scan_free_bounds (connections st) 0) as [H|H]; [done|].
    set (k := Z.to_nat (scan_free (connections st) 0)).
    assert (Hk : scan_free (connections st) 0 = Z.of_nat k) by lia.
    destruct (scan_free_found _ _ _ Hk) as (c & Hc & Hfree & _ & Hlow).
    rewrite Nat.sub_0_r in Hc, Hlow.
    exists k, c. split; [done|]. split; [lia|]. done.
Qed.

Lemma find_free_slot_lowest_free_witness :
  find_free_slot one_client = 1
  /\ exists (k : nat) c,
       find_free_slot one_client = Z.of_nat k
       /\ (k < length (connections one_client))%nat
       /\ connections one_client !! k = Some c
       /\ active c = 0
       /\ forall j c', (j < k)%nat ->
                       connections one_client !! j = Some c' -> active c' <> 0.
Proof.
  split; [reflexivity|].
  apply (proj2 (find_free_slot_lowest_free one_client)).
  vm_compute. discriminate.
Defined.

(** X2. [accept_connection] returns -1 exactly when [accept] failed or
    every slot is active, and then the table, the counter and the workers
    are as before; in every other case it returns the value of
    [find_free_slot]. *)
Theorem accept_connection_refusal a st :
  (fst (accept_connection a st) = -1
   <-> client_socket a < 0
       \/ Forall (fun c => active c <> 0) (connections st))
  /\ (fst (accept_connection a st) = -1 ->
      connections (snd (accept_connection a st)) = connections st
      /\ conn_count (snd (accept_connection a st)) = conn_count st
      /\ workers (snd (accept_connection a st)) = workers st)
  /\ (fst (accept_connection a st) <> -1 ->
      fst (accept_connection a st) = find_free_slot st).
Proof.
  pose proof (scan_free_bounds (connections st) 0) as Hb.
  pose proof (scan_free_all_active (connections st) 0) as Hall.
  pose proof (scan_free_none (connections st) 0) as Hnone.
  unfold accept_connection, find_free_slot.
  destruct (Z.ltb_spec (client_socket a) 0) as [Hfd|Hfd]; simpl.
  { split; [split; [by left | done]|]. split; done. }
  destruct (Z.ltb_spec (scan_free (connections st) 0) 0) as [Hs|Hs]; simpl.
  - assert (scan_free (connections st) 0 = -1) as Hm by lia.
    split; [split; [by right; apply Hall | done]|]. split; done.
  - split; [|split; [lia | done]].
    split; [lia|]. intros [?|Hf]; [lia|]. apply Hnone in Hf. lia.
Qed.

Lemma accept_connection_refusal_witness :
  fst (accept_connection (client 200) full_state) = -1
  /\ connections (snd (accept_connection (client 200) full_state))
     = connections full_state
  /\ fst (accept_connection (client 5) one_client) = 1.
Proof.
  destruct (accept_connection_refusal (client 200) full_state) as (_ & H2 & _).
  destruct (accept_connection_refusal (client 5) one_client) as (_ & _ & H3).
  split; [reflexivity|]. split.
  - apply H2. reflexivity.
  - rewrite H3; [reflexivity|]. vm_compute. discriminate.
Defined.

(** X3. A successful [accept_connection] takes the lowest free slot and
    writes the descriptor, the peer address, [authenticated = 0] and
    [active = 1] into it; every other slot is untouched, the table keeps
    its length and [conn_count] grows by one. *)
Theorem accept_connection_fills_lowest_free a st slot st' :
  accept_connection a st = (slot, st') ->
  0 <= slot ->
  exists c,
    connections st !! Z.to_nat slot = Some c
    /\ active c = 0
    /\ (forall j c', (j < Z.to_nat slot)%nat ->
                     connections st !! j = Some c' -> active c' <> 0)
    /\ connections st'
       = <[Z.to_nat slot :=
             {| socket := client_socket a; client_ip := Some (peer a);
                authenticated := 0; username := username c;
                thread := default (thread c) (created a); active := 1 |}]>
           (connections st)
    /\ length (connections st') = length (connections st)
    /\ conn_count st' = conn_count st + 1.
Proof.
  unfold accept_connection.
  destruct (Z.ltb_spec (client_socket a) 0); [intros [= <- <-]; lia|].
  destruct (Z.ltb_spec (find_free_slot st) 0); [intros [= <- <-]; lia|].
  intros [= <- <-] _.
  destruct (scan_free_found (connections st) 0 (Z.to_nat (find_free_slot st)))
    as (c & Hc & Hfree & _ & Hlow).
  { unfold find_free_slot in *. lia. }
  rewrite Nat.sub_0_r in Hc, Hlow. exists c. simpl.
  split; [done|]. split; [done|]. split; [done|].
  rewrite (alter_is_insert _ _ _ _ Hc), length_insert. done.
Qed.

Lemma accept_connection_fills_lowest_free_witness :
  exists c,
    connections one_client !! Z.to_nat 1 = Some c
    /\ active c = 0
    /\ (forall j c', (j < Z.to_nat 1)%nat ->
                     connections one_client !! j = Some c' -> active c' <> 0)
    /\ connections (snd (accept_connection (client 5) one_client))
       = <[Z.to_nat 1 :=
             {| socket := 5; client_ip := Some (lit "10.0.0.1");
                authenticated := 0; username := username c;
                thread := default (thread c) (Some 5); active := 1 |}]>
           (connections one_client)
    /\ length (connections (snd (accept_connection (client 5) one_client)))
       = length (connections one_client)
    /\ conn_count (snd (accept_connection (client 5) one_client))
       = conn_count one_client + 1.
Proof.
  apply (accept_connection_fills_lowest_free (client 5) one_client 1
           (snd (accept_connection (client 5) one_client))).
  - reflexivity.
  - lia.
Defined.

(** ** Invariants of the registry *)

Lemma worker_iteration_table w slot data st ctl st' :
  worker_iteration w slot data st = Some (ctl, st') ->
  conn_count st' = conn_count st
  /\ workers st' = workers st
  /\ length (connections st') = length (connections st)
  /\ active_count st' = active_count st.
Proof.
  unfold worker_iteration.
  destruct (connections st !! slot) as [conn|] eqn:Hc; [|done].
  destruct data as [|d data]; [by intros [= <- <-]|].
  destruct (recv_buffer (d :: data)) as [buffer|]; [|done].
  destruct (parse_request buffer zeroed) as [rc req].
  destruct (rc =? 0); [|by intros [= <- <-]].
  destruct (request_fits req); [|done].
  intros [= <- <-]. simpl. rewrite length_insert.
  repeat split. unfold active_count. simpl.
  rewrite (actives_insert _ _ _ _ Hc). unfold weight, is_active.
  rewrite route_active. lia.
Qed.

Lemma worker_cleanup_table slot st :
  length (connections (worker_cleanup slot st)) = length (connections st)
  /\ conn_count (worker_cleanup slot st) - active_count (worker_cleanup slot st)
     <= conn_count st - active_count st.
Proof.
  unfold worker_cleanup.
  destruct (connections st !! slot) as [conn|] eqn:Hc; simpl; [|lia].
  rewrite length_insert. unfold active_count. simpl.
  rewrite (actives_insert _ _ _ _ Hc). unfold weight.
  destruct (is_active conn); simpl; lia.
Qed.

Lemma active_slots_range cs :
  0 <= active_slots cs <= Z.of_nat (length cs).
Proof.
  unfold active_slots.
  pose proof (length_filter (fun c => is_active c = true) cs). lia.
Qed.

Lemma step_table o st st' :
  step o st = Some st' ->
  length (connections st') = length (connections st)
  /\ (conn_count st <= active_count st -> conn_count st' <= active_count st').
Proof.
  destruct o as [a|slot w data|slot|]; simpl.
  - intros [= <-]. unfold accept_connection.
    destruct (client_socket a <? 0); [done|].
    destruct (Z.ltb_spec (find_free_slot st) 0) as [Hs|Hs]; [done|].
    destruct (scan_free_found (connections st) 0 (Z.to_nat (find_free_slot st)))
      as (c & Hc & Hfree & _).
    { unfold find_free_slot in *. lia. }
    rewrite Nat.sub_0_r in Hc. simpl. rewrite length_alter.
    split; [done|]. unfold active_count. simpl.
    rewrite (alter_is_insert _ _ _ _ Hc), (actives_insert _ _ _ _ Hc).
    apply is_active_false in Hfree. unfold weight. rewrite Hfree. simpl. lia.
  - destruct (live slot st); [|done].
    destruct (worker_iteration w slot data st) as [[[|] st1]|] eqn:E;
      try done.
    intros [= <-].
    destruct (worker_iteration_table _ _ _ _ _ _ E) as (-> & _ & -> & ->).
    done.
  - destruct (live slot st); [|done]. intros [= <-].
    destruct (worker_cleanup_table slot st) as (Hl & Hc).
    split; [done | lia].
  - intros [= <-]. rewrite close_all_connections_table, length_fmap.
    split; [done|]. intros _.
    pose proof (active_slots_range
                  (connections (close_all_connections st))) as [H _].
    unfold active_count.
    replace (conn_count (close_all_connections st)) with 0; [done|].
    unfold close_all_connections. by destruct (close_loop (connections st)).
Qed.

Lemma run_table ops st st' :
  run ops st = Some st' ->
  length (connections st') = length (connections st)
  /\ (conn_count st <= active_count st -> conn_count st' <= active_count st').
Proof.
  revert st; induction ops as [|o ops IH]; intros st; simpl.
  - by intros [= <-].
  - destruct (step o st) as [st1|] eqn:E; [|done]. simpl. intros Hrun.
    destruct (step_table _ _ _ E) as [Hl Hc].
    destruct (IH _ Hrun) as [Hl' Hc']. split; [congruence | auto].
Qed.

(** X5. In every reachable state [conn_count] is at most the number of
    active slots, which is at most 100: whatever the interleaving of
    accepts, releases and shutdowns, the counter never overstates the
    connections and never exceeds MAX_CONNECTIONS. *)
Theorem reachable_conn_count_at_most_active st :
  reachable st ->
  conn_count st <= active_count st
  /\ active_count st <= Z.of_nat MAX_CONNECTIONS.
Proof.
  intros [ops Hrun]. destruct (run_table _ _ _ Hrun) as [Hl Hc].
  split; [by apply Hc|].
  pose proof (active_slots_range (connections st)) as [_ H].
  unfold active_count. rewrite Hl in H. exact H.
Qed.

Lemma reachable_conn_count_at_most_active_witness :
  exists st,
    run shutdown_then_exit initial_state = Some st
    /\ conn_count st = -1
    /\ conn_count st <= active_count st
    /\ active_count st <= Z.of_nat MAX_CONNECTIONS.
Proof.
  eexists. split; [vm_compute; reflexivity|]. split; [reflexivity|].
  apply reachable_conn_count_at_most_active. exists shutdown_then_exit.
  vm_compute. reflexivity.
Defined.

Lemma no_close_all_in_login_then_leave : CloseAll ∉ login_then_leave.
Proof.
  unfold login_then_leave. intros H.
  repeat (apply elem_of_cons in H as [H|H]; [discriminate|]).
  by apply elem_of_nil in H.
Defined.

(** X6. As long as [close_all_connections] has not been called,
    [conn_count] is exactly the number of active slots, hence between 0
    and 100. *)
Theorem conn_count_exact_until_shutdown ops st :
  CloseAll ∉ ops ->
  run ops initial_state = Some st ->
  conn_count st = active_count st
  /\ 0 <= conn_count st <= Z.of_nat MAX_CONNECTIONS.
Proof.
  intros Hno Hrun.
  destruct (count_inv_run _ _ _ Hno Hrun count_inv_initial) as (Hc & _).
  split; [done|]. rewrite Hc.
  destruct (run_table _ _ _ Hrun) as [Hl _].
  pose proof (active_slots_range (connections st)) as H.
  unfold active_count. rewrite Hl in H. exact H.
Qed.

Lemma conn_count_exact_until_shutdown_witness :
  exists st,
    run login_then_leave initial_state = Some st
    /\ conn_count st = active_count st
    /\ 0 <= conn_count st <= Z.of_nat MAX_CONNECTIONS.
Proof.
  eexists. split; [vm_compute; reflexivity|].
  apply (conn_count_exact_until_shutdown login_then_leave).
  - exact no_close_all_in_login_then_leave.
  - vm_compute. reflexivity.
Defined.

(** X7. As long as [close_all_connections] has not been called, no two
    live workers serve the same slot and the slot of every live worker is
    active. *)
Theorem workers_own_active_slots_until_shutdown ops st :
  CloseAll ∉ ops ->
  run ops initial_state = Some st ->
  NoDup (workers st)
  /\ forall s, s ∈ workers st ->
               exists c, connections st !! s = Some c /\ active c <> 0.
Proof.
  intros Hno Hrun.
  destruct (count_inv_run _ _ _ Hno Hrun count_inv_initial) as (_ & Hnd & Hl).
  split; [done|]. intros s Hs. specialize (Hl s Hs).
  unfold slot_active in Hl. destruct (connections st !! s) as [c|]; [|done].
  exists c. split; [done|]. by apply is_active_true.
Qed.

Lemma workers_own_active_slots_until_shutdown_witness :
  exists st,
    run [Accept (client 4); Accept (client 5)] initial_state = Some st
    /\ workers st = [0%nat; 1%nat]
    /\ NoDup (workers st)
    /\ forall s, s ∈ workers st ->
                 exists c, connections st !! s = Some c /\ active c <> 0.
Proof.
  eexists. split; [vm_compute; reflexivity|]. split; [reflexivity|].
  apply (workers_own_active_slots_until_shutdown
           [Accept (client 4); Accept (client 5)]).
  - intros H. repeat (apply elem_of_cons in H as [H|H]; [discriminate|]).
    by apply elem_of_nil in H.
  - vm_compute. reflexivity.
Defined.

(** ** [close_all_connections] and [dump_connections] *)

Lemma close_loop_events cs : snd (close_loop cs) = closes_of cs.
Proof.
  unfold closes_of. induction cs as [|c cs IH]; simpl; [done|].
  destruct (close_loop cs) as [cs' ev]. simpl in IH. subst ev.
  rewrite filter_cons.
  destruct (decide (is_active c = true)) as [H|H].
  - by rewrite H.
  - by destruct (is_active c).
Qed.

Lemma closes_of_length cs : Z.of_nat (length (closes_of cs)) = active_slots cs.
Proof. unfold closes_of, active_slots. by rewrite length_fmap. Qed.

(** X8. [close_all_connections] closes the descriptor of every active
    slot, once each and in the order of the table, and nothing else: as
    many [close] calls as there were active slots.  It ends no worker and
    keeps the descriptor, the peer address and the session fields of every
    slot. *)
Theorem close_all_connections_closes_active st :
  trace (close_all_connections st) = trace st ++ closes_of (connections st)
  /\ Z.of_nat (length (closes_of (connections st))) = active_count st
  /\ workers (close_all_connections st) = workers st
  /\ forall i c,
       connections st !! i = Some c ->
       exists c',
         connections (close_all_connections st) !! i = Some c'
         /\ socket c' = socket c /\ client_ip c' = client_ip c
         /\ authenticated c' = authenticated c /\ username c' = username c.
Proof.
  split; [|split; [apply closes_of_length|split]].
  - rewrite <- close_loop_events. unfold close_all_connections.
    by destruct (close_loop (connections st)).
  - unfold close_all_connections. by destruct (close_loop (connections st)).
  - intros i c Hc. exists (released c).
    rewrite close_all_connections_table, list_lookup_fmap, Hc. done.
Qed.

Lemma close_all_connections_closes_active_witness :
  exists st,
    run [Accept (client 4); Accept (client 5)] initial_state = Some st
    /\ trace (close_all_connections st) = trace st ++ [EvClose 4; EvClose 5]
    /\ exists c',
         connections (close_all_connections st) !! 1%nat = Some c'
         /\ socket c' = 5 /\ client_ip c' = Some (lit "10.0.0.1")
         /\ authenticated c' = 0 /\ username c' = [].
Proof.
  eexists. split; [vm_compute; reflexivity|].
  match goal with
  | |- trace (close_all_connections ?s) = _ /\ _ =>
    destruct (close_all_connections_closes_active s) as (H1 & _ & _ & H4)
  end.
  split; [rewrite H1; reflexivity|].
  apply (H4 1%nat {| socket := 5; client_ip := Some (lit "10.0.0.1");
                     authenticated := 0; username := []; thread := 5;
                     active := 1 |}).
  reflexivity.
Defined.

Lemma close_loop_released cs :
  close_loop (released <$> cs) = (released <$> cs, []).
Proof.
  induction cs as [|c cs IH]; [done|].
  rewrite fmap_cons. cbn [close_loop]. rewrite IH. done.
Qed.

(** X9. Shutting down twice is shutting down once: the second
    [close_all_connections] finds no active slot, closes nothing and
    leaves the state as the first one made it. *)
Theorem close_all_connections_idempotent st :
  close_all_connections (close_all_connections st)
  = close_all_connections st.
Proof.
  pose proof (close_all_connections_table st) as Ht.
  assert (Hc : conn_count (close_all_connections st) = 0).
  { unfold close_all_connections. by destruct (close_loop (connections st)). }
  destruct (close_all_connections st) as [cs n ws tr]. simpl in Ht, Hc.
  subst cs n. unfold close_all_connections. simpl.
  by rewrite close_loop_released, app_nil_r.
Qed.

Lemma route_conn w n c r :
  h_conn (route w n c r) = c
  \/ exists user, h_conn (route w n c r) = logged_in c user.
Proof.
  unfold route, serve_file, login, exec, upload, reply, no_reply, logged_in.
  repeat case_match; simpl; eauto.
Qed.

Lemma peers_known_step o st st' :
  step o st = Some st' -> peers_known st -> peers_known st'.
Proof.
  unfold peers_known. destruct o as [a|slot w data|slot|]; simpl.
  - intros [= <-] H. unfold accept_connection.
    destruct (client_socket a <? 0); [done|].
    destruct (find_free_slot st <? 0); [done|]. simpl.
    apply Forall_alter; [done|]. done.
  - destruct (live slot st); [|done].
    unfold worker_iteration.
    destruct (connections st !! slot) as [conn|] eqn:Hc; [|done].
    destruct data as [|d data]; [done|].
    destruct (recv_buffer (d :: data)) as [buffer|]; [|done].
    destruct (parse_request buffer zeroed) as [rc req].
    destruct (rc =? 0); [|by intros [= <-]].
    destruct (request_fits req); [|done].
    intros [= <-] H. simpl. apply Forall_insert; [done|].
    pose proof (proj1 (Forall_lookup _ _) H _ _ Hc) as Hconn.
    destruct (route_conn w (conn_count st) conn req) as [->|[user ->]];
      done.
  - destruct (live slot st); [|done]. intros [= <-] H.
    unfold worker_cleanup.
    destruct (connections st !! slot) as [conn|]; [|done]. simpl.
    apply Forall_insert; done.
  - intros [= <-] _. rewrite close_all_connections_table.
    apply Forall_fmap, Forall_true. intros c Hc. simpl in Hc. done.
Qed.

Lemma peers_known_run ops st st' :
  run ops st = Some st' -> peers_known st -> peers_known st'.
Proof.
  revert st; induction ops as [|o ops IH]; intros st; simpl.
  - by intros [= <-].
  - destruct (step o st) as [st1|] eqn:E; [|done]. simpl.
    intros Hrun H. eapply IH; [done|]. by eapply peers_known_step.
Qed.

Lemma dump_loop_lines cs i :
  Forall (fun c => active c <> 0 -> client_ip c <> None) cs ->
  exists ls, dump_loop cs i = Some ls
             /\ Z.of_nat (length ls) = active_slots cs.
Proof.
  intros H; revert i; induction H as [|c cs Hc _ IH]; intros i; simpl.
  - by exists [].
  - destruct (IH (S i)) as (ls & -> & Hlen). rewrite actives_cons.
    unfold dump_line, weight. destruct (is_active c) eqn:E.
    + apply is_active_true in E. apply Hc in E.
      destruct (client_ip c); [|done]. eexists. split; [done|].
      simpl. lia.
    + exists ls. split; [done|]. lia.
Qed.

(** X10. [active] and [client_ip] change together, under the lock: in
    every state the locked operations can reach, each active slot has its
    peer address.  [dump_connections] takes no lock; a call of it that no
    operation of the registry falls into therefore hands no NULL to [%s]
    and prints the header, one line per active slot and the footer. *)
Theorem reachable_dump_connections st :
  reachable st ->
  peers_known st
  /\ exists lines,
       dump_connections st = Some lines
       /\ Z.of_nat (length lines) = active_count st + 2.
Proof.
  intros [ops Hrun].
  assert (Hp : peers_known st).
  { eapply peers_known_run; [done|].
    apply (Forall_replicate _ MAX_CONNECTIONS zero_connection). done. }
  split; [done|]. unfold dump_connections.
  destruct (dump_loop_lines _ 0 Hp) as (ls & -> & Hlen).
  eexists. split; [done|]. simpl. rewrite length_app. simpl.
  unfold active_count. lia.
Qed.

Lemma reachable_dump_connections_witness :
  exists st,
    run [Accept (client 4); Accept (client 5); Finish 0] initial_state
    = Some st
    /\ dump_connections st
       = Some [EvPrintf (lit "=== Active Connections ===" ++ [LF]);
               EvPrintf (lit "  [1] 10.0.0.1 - auth: 0 - user: " ++ [LF]);
               EvPrintf (lit "==========================" ++ [LF])]
    /\ peers_known st
    /\ exists lines,
         dump_connections st = Some lines
         /\ Z.of_nat (length lines) = active_count st + 2.
Proof.
  eexists. split; [vm_compute; reflexivity|]. split; [reflexivity|].
  apply reachable_dump_connections.
  exists [Accept (client 4); Accept (client 5); Finish 0].
  vm_compute. reflexivity.
Defined.

(** ** The conversions with a width *)

Lemma take_word_spec width s t r :
  take_word width s = (t, r) ->
  s = t ++ r
  /\ no_space t
  /\ (forall n, width = Some n -> (length t <= n)%nat)
  /\ (r = [] \/ (exists c r', r = c :: r' /\ isspace c = true)
      \/ width = Some (length t)).
Proof.
  unfold no_space.
  revert width t r; induction s as [|c s IH]; intros width t r.
  - destruct width as [[|n]|]; simpl; intros [= <- <-];
      (split; [done|]); (split; [constructor|]);
      (split; [intros ? [= <-]; simpl; lia | by left]).
  - destruct width as [[|n]|]; simpl.
    + intros [= <- <-]. split; [done|]. split; [constructor|].
      split; [intros ? [= <-]; simpl; lia | by right; right].
    + destruct (isspace c) eqn:E.
      * intros [= <- <-]. split; [done|]. split; [constructor|].
        split; [intros ? _; simpl; lia | right; left; eauto].
      * destruct (take_word (Some n) s) as [tok r'] eqn:Et.
        intros [= <- <-]. destruct (IH _ _ _ Et) as (-> & Hns & Hlen & Hend).
        split; [done|]. split; [by constructor|]. split.
        -- intros m [= <-]. simpl. specialize (Hlen n eq_refl). lia.
        -- destruct Hend as [?|[?|[= ->]]]; eauto.
    + destruct (isspace c) eqn:E.
      * intros [= <- <-]. split; [done|]. split; [constructor|].
        split; [done | right; left; eauto].
      * destruct (take_word None s) as [tok r'] eqn:Et.
        intros [= <- <-]. destruct (IH _ _ _ Et) as (-> & Hns & Hlen & Hend).
        split; [done|]. split; [by constructor|]. split; [done|].
        destruct Hend as [?|[?|?]]; [eauto | eauto | done].
Qed.

Lemma scan_s_spec n s t r :
  scan_s (Some (S n)) s = Some (t, r) ->
  (1 <= length t <= S n)%nat
  /\ no_space t
  /\ (r = [] \/ (exists c r', r = c :: r' /\ isspace c = true)
      \/ length t = S n).
Proof.
  unfold scan_s. destruct (skip_space s) as [|c s'] eqn:Es; [done|].
  intros Ht. apply (inj Some) in Ht.
  pose proof (skip_space_head _ _ _ Es) as Hc.
  destruct (take_word_spec _ _ _ _ Ht) as (Happ & Hns & Hlen & Hend).
  split; [|split; [done|]].
  - split; [|by apply Hlen]. simpl in Ht. rewrite Hc in Ht.
    destruct (take_word _ s') as [tok r']. injection Ht as <- <-.
    simpl. lia.
  - destruct Hend as [?|[?|[= ?]]]; eauto.
Qed.

Lemma scan_lit_spec l s r : scan_lit l s = Some r -> s = l ++ r.
Proof.
  unfold scan_lit. destruct (starts_with l s) eqn:E; [|done].
  intros [= <-]. apply starts_with_prefix in E as [post ->].
  by rewrite drop_app_length.
Qed.

(** Both strings of a login are stored only when the name fills the 63
    characters of its conversion. *)
Lemma sscanf_login_both b u p :
  sscanf_login b = (Some u, Some p) ->
  length u = 63%nat /\ (1 <= length p <= 63)%nat
  /\ no_space u /\ no_space p.
Proof.
  unfold sscanf_login.
  destruct (scan_lit (lit "user=") b) as [r0|]; [|done].
  destruct (scan_s (Some 63%nat) r0) as [[u' r1]|] eqn:Eu; [|done].
  destruct (scan_lit (lit "&pass=") r1) as [r2|] eqn:El; [|done].
  destruct (scan_s (Some 63%nat) r2) as [[p' r3]|] eqn:Ep; [|done].
  intros [= <- <-].
  destruct (scan_s_spec _ _ _ _ Eu) as (Hlu & Hnu & Hend).
  destruct (scan_s_spec _ _ _ _ Ep) as (Hlp & Hnp & _).
  apply scan_lit_spec in El. subst r1.
  split; [|done].
  destruct Hend as [?|[(c & r' & Hr & Hc)|?]]; [done| |done].
  injection Hr as <- _. vm_compute in Hc. discriminate.
Qed.

(** X11. The conversions [%63s] and [%255s] keep what they store inside
    [username], [password] (64 bytes each) and [filename] (256 bytes): a
    stored string is never empty, holds no white space and has at most 63,
    respectively 255, characters. *)
Theorem scanned_strings_fit b :
  (forall u, fst (sscanf_login b) = Some u ->
             (1 <= length u)%nat /\ (stored u <= 64)%nat /\ no_space u)
  /\ (forall p, snd (sscanf_login b) = Some p ->
                (1 <= length p)%nat /\ (stored p <= 64)%nat /\ no_space p)
  /\ (forall f, sscanf_filename b = Some f ->
                (1 <= length f)%nat /\ (stored f <= 256)%nat /\ no_space f).
Proof.
  unfold stored. split; [|split].
  - intros u. unfold sscanf_login.
    destruct (scan_lit (lit "user=") b) as [r0|]; [|done].
    destruct (scan_s (Some 63%nat) r0) as [[u' r1]|] eqn:Eu; [|done].
    destruct (scan_s_spec _ _ _ _ Eu) as (Hl & Hn & _).
    destruct (scan_lit (lit "&pass=") r1) as [r2|];
      [destruct (scan_s (Some 63%nat) r2) as [[p' r3]|]|];
      intros [= <-]; (split; [lia|]); (split; [lia | done]).
  - intros p. unfold sscanf_login.
    destruct (scan_lit (lit "user=") b) as [r0|]; [|done].
    destruct (scan_s (Some 63%nat) r0) as [[u' r1]|]; [|done].
    destruct (scan_lit (lit "&pass=") r1) as [r2|]; [|done].
    destruct (scan_s (Some 63%nat) r2) as [[p' r3]|] eqn:Ep; [|done].
    destruct (scan_s_spec _ _ _ _ Ep) as (Hl & Hn & _).
    intros [= <-]. split; [lia|]. split; [lia | done].
  - intros f. unfold sscanf_filename.
    destruct (scan_lit (lit "filename=") b) as [r0|]; [|done].
    destruct (scan_s (Some 255%nat) r0) as [[f' r1]|] eqn:Ef; [|done].
    destruct (scan_s_spec _ _ _ _ Ef) as (Hl & Hn & _).
    intros [= <-]. split; [lia|]. split; [lia | done].
Qed.

Lemma scanned_strings_fit_witness :
  sscanf_filename (lit "filename=notes.txt&content=hello")
  = Some (lit "notes.txt&content=hello")
  /\ (1 <= length (lit "notes.txt&content=hello"))%nat
  /\ (stored (lit "notes.txt&content=hello") <= 256)%nat
  /\ no_space (lit "notes.txt&content=hello").
Proof.
  split; [reflexivity|].
  apply (proj2 (proj2 (scanned_strings_fit
                         (lit "filename=notes.txt&content=hello")))).
  reflexivity.
Defined.

(** ** Routing *)

(** X12. No route consults the connection record: the response to a
    request and what the handler does for it (the command run, the file
    written, the line printed) are the same whether or not the connection
    is authenticated and whoever its user is. *)
Theorem route_ignores_session w n c1 c2 r :
  h_response (route w n c1 r) = h_response (route w n c2 r)
  /\ h_events (route w n c1 r) = h_events (route w n c2 r).
Proof.
  unfold route, serve_file, login, exec, upload, reply, no_reply.
  repeat case_match; done.
Qed.

(** X13. A POST /login whose body yields a user name and the password
    admin123 sets [authenticated = 1] and stores that name, which has
    exactly 63 characters, in the connection record; every other request
    leaves the record as it was.  The comparison of the name with [debug]
    never decides anything, since a name that short leaves the password
    unread. *)
Theorem route_session_change w n c r :
  (forall user,
      method r = lit "POST" -> path r = lit "/login" ->
      sscanf_login (body r) = (Some user, Some (lit "admin123")) ->
      length user = 63%nat
      /\ h_conn (route w n c r) = logged_in c user
      /\ authenticated (h_conn (route w n c r)) = 1
      /\ username (h_conn (route w n c r)) = user)
  /\ (~ (method r = lit "POST" /\ path r = lit "/login"
         /\ exists user,
              sscanf_login (body r) = (Some user, Some (lit "admin123"))) ->
      h_conn (route w n c r) = c).
Proof.
  split.
  - intros user Hm Hp Hs.
    destruct (sscanf_login_both _ _ _ Hs) as (Hlen & _).
    split; [done|].
    assert (H : h_conn (route w n c r) = logged_in c user); [|by rewrite H].
    unfold route. rewrite Hm, Hp.
    change (strcmp0 (lit "POST") (lit "GET")) with false.
    change (strcmp0 (lit "POST") (lit "POST")) with true.
    change (strcmp0 (lit "/login") (lit "/login")) with true.
    cbv iota. unfold login. rewrite Hs.
    change (strcmp0 (lit "admin123") (lit "admin123")) with true.
    cbn [orb h_conn]. unfold logged_in. by rewrite take_ge by lia.
  - intros Hnot. unfold route, strcmp0.
    destruct (bytes_eqb (method r) (lit "GET")).
    { unfold serve_file, reply. repeat case_match; done. }
    destruct (bytes_eqb (method r) (lit "POST")) eqn:Hm; [|done].
    destruct (bytes_eqb (path r) (lit "/login")) eqn:Hp.
    2:{ unfold exec, upload, reply, no_reply. repeat case_match; done. }
    apply bytes_eqb_eq in Hm, Hp. unfold login, strcmp0.
    destruct (sscanf_login (body r)) as [[u|] [p|]] eqn:Hs; try done.
    destruct (sscanf_login_both _ _ _ Hs) as (Hlen & _).
    assert (Hdebug : bytes_eqb u (lit "debug") = false).
    { destruct (bytes_eqb u (lit "debug")) eqn:E; [|done].
      apply bytes_eqb_eq in E. subst u. simpl in Hlen. lia. }
    rewrite Hdebug, orb_false_r.
    destruct (bytes_eqb p (lit "admin123")) eqn:Hpw; [|done].
    apply bytes_eqb_eq in Hpw. subst p. destruct Hnot. eauto.
Qed.

Lemma route_session_change_witness :
  parse_request login_request zeroed
  = (0, {| method := lit "POST"; path := lit "/login";
           body := lit "user=" ++ long_name ++ lit "&pass=admin123" |})
  /\ (length long_name = 63%nat
      /\ h_conn (route bare_world 1 zero_connection
                   {| method := lit "POST"; path := lit "/login";
                      body := lit "user=" ++ long_name
                              ++ lit "&pass=admin123" |})
         = logged_in zero_connection long_name
      /\ authenticated
           (h_conn (route bare_world 1 zero_connection
                      {| method := lit "POST"; path := lit "/login";
                         body := lit "user=" ++ long_name
                                 ++ lit "&pass=admin123" |})) = 1
      /\ username
           (h_conn (route bare_world 1 zero_connection
                      {| method := lit "POST"; path := lit "/login";
                         body := lit "user=" ++ long_name
                                 ++ lit "&pass=admin123" |})) = long_name)
  /\ h_conn (route bare_world 1 zero_connection
               {| method := lit "POST"; path := lit "/login";
                  body := lit "user=debug&pass=x" |})
     = zero_connection.
Proof.
  split; [reflexivity|]. split.
  - apply (proj1 (route_session_change bare_world 1 zero_connection
                    {| method := lit "POST"; path := lit "/login";
                       body := lit "user=" ++ long_name
                               ++ lit "&pass=admin123" |}));
      reflexivity.
  - apply (proj2 (route_session_change bare_world 1 zero_connection
                    {| method := lit "POST"; path := lit "/login";
                       body := lit "user=debug&pass=x" |})).
    intros (_ & _ & user & H). vm_compute in H. discriminate.
Defined.

Ltac eval_strcmp :=
  repeat match goal with
         | |- context [strcmp0 (lit ?a) (lit ?b)] =>
           let v := eval vm_compute in (strcmp0 (lit a) (lit b)) in
           change (strcmp0 (lit a) (lit b)) with v
         end.

(** X14. The response buffer is left unwritten, and then sent as it
    stands, in these cases and no other: a POST /login whose body does not
    yield both strings, a POST /exec with an empty body, and a POST /upload
    whose body yields no file name or holds no [&content=], or whose file
    does not open.  Every GET, every other path and every other method get
    a response written for them. *)
Theorem route_response_unwritten w n c r :
  h_response (route w n c r) = None
  <-> method r = lit "POST"
      /\ ((path r = lit "/login"
           /\ (fst (sscanf_login (body r)) = None
               \/ snd (sscanf_login (body r)) = None))
          \/ (path r = lit "/exec" /\ body r = [])
          \/ (path r = lit "/upload"
              /\ (sscanf_filename (body r) = None
                  \/ strstr (body r) (lit "&content=") = None
                  \/ exists f, sscanf_filename (body r) = Some f
                               /\ fopen_w w f = false))).
Proof.
  split.
  - unfold route.
    destruct (strcmp0 (method r) (lit "GET")).
    { unfold serve_file, reply. repeat case_match; done. }
    destruct (strcmp0 (method r) (lit "POST")) eqn:Hm; [|done].
    apply bytes_eqb_eq in Hm. intros H. split; [done|]. revert H.
    destruct (strcmp0 (path r) (lit "/login")) eqn:Hl.
    { apply bytes_eqb_eq in Hl. intros H. left. split; [done|].
      unfold login in H.
      destruct (sscanf_login (body r)) as [[u|] [p|]]; simpl; eauto.
      by destruct (_ || _). }
    destruct (strcmp0 (path r) (lit "/exec")) eqn:He.
    { apply bytes_eqb_eq in He. intros H. right; left. split; [done|].
      unfold exec in H. destruct (body r); [done|]. simpl in H.
      by destruct (popen_r w _). }
    destruct (strcmp0 (path r) (lit "/upload")) eqn:Hu; [|done].
    apply bytes_eqb_eq in Hu. intros H. right; right. split; [done|].
    unfold upload in H.
    destruct (sscanf_filename (body r)) as [f|]; [|by left].
    destruct (strstr (body r) (lit "&content=")); [|by right; left].
    destruct (fopen_w w f) eqn:Ef; [done|]. right; right. eauto.
  - destruct r as [m p b]. simpl.
    intros [-> [[-> H]|[[-> ->]|[-> H]]]]; unfold route; simpl;
      eval_strcmp; cbv iota.
    + unfold login.
      destruct (sscanf_login b) as [[u|] [q|]]; simpl in H;
        destruct H; done.
    + done.
    + unfold upload. destruct H as [->|[H|(f & -> & H)]]; [done| |].
      * destruct (sscanf_filename b); [|done].
        destruct (strstr b (lit "&content=")) eqn:E; [|done].
        unfold lit in E, H. simpl in E, H. congruence.
      * destruct (strstr b (lit "&content=")); [|done]. by rewrite H.
Qed.

Lemma route_response_unwritten_witness :
  h_response (route bare_world 0 zero_connection
                {| method := lit "POST"; path := lit "/exec"; body := [] |})
  = None
  /\ worker_iteration bare_world 0 (lit "POST /exec" ++ CRLFCRLF) one_client
     = Some (Continue, emit [EvSend 4 None] one_client).
Proof.
  split; [|reflexivity].
  apply (proj2 (route_response_unwritten bare_world 0 zero_connection
                  {| method := lit "POST"; path := lit "/exec";
                     body := [] |})).
  split; [reflexivity|]. right; left. split; reflexivity.
Defined.

(** X15. A GET whose path begins with /file/ and whose file does not open
    is answered 404 with the text File not found; the connection record is
    left alone and nothing else is done. *)
Theorem get_file_not_found w n c r rest :
  method r = lit "GET" ->
  path r = lit "/file/" ++ rest ->
  fopen_r w (lit "/var/data/" ++ rest) = None ->
  route w n c r
  = {| h_conn := c;
       h_response := Some (lit "HTTP/1.1 404 Not Found" ++ CRLFCRLF
                           ++ lit "File not found");
       h_events := [] |}.
Proof.
  intros Hm Hp Hf. unfold route, serve_file. rewrite Hm, Hp.
  change (strcmp0 (lit "GET") (lit "GET")) with true.
  change (strncmp0 (lit "/file/" ++ rest) (lit "/file/") 6) with true.
  change (lit "/var/data" ++ drop 5 (lit "/file/" ++ rest))
    with (lit "/var/data/" ++ rest).
  by rewrite Hf.
Qed.

Lemma get_file_not_found_witness :
  worker_iteration bare_world 0 (lit "GET /file/report.txt" ++ CRLFCRLF)
    one_client
  = Some (Continue,
          emit [EvSend 4 (Some (lit "HTTP/1.1 404 Not Found" ++ CRLFCRLF
                                ++ lit "File not found"))] one_client)
  /\ route bare_world 1 zero_connection
       {| method := lit "GET"; path := lit "/file/report.txt"; body := [] |}
     = {| h_conn := zero_connection;
          h_response := Some (lit "HTTP/1.1 404 Not Found" ++ CRLFCRLF
                              ++ lit "File not found");
          h_events := [] |}.
Proof.
  split; [reflexivity|].
  apply (get_file_not_found bare_world 1 zero_connection
           {| method := lit "GET"; path := lit "/file/report.txt";
              body := [] |} (lit "report.txt")); reflexivity.
Defined.

(** X16. No route overruns its buffers.  For a path that fits the 256
    bytes of [path] and a counter printed in at most 11 characters (any
    32-bit [int]), the string a route writes fits the 4096 bytes of
    [response], and the file name built for /file/ fits the 512 bytes of
    [filepath]. *)
Theorem route_writes_fit w n c r resp :
  (stored (path r) <= PATH_SIZE)%nat ->
  (length (print_d n) <= 11)%nat ->
  h_response (route w n c r) = Some resp ->
  (stored resp <= RESPONSE_SIZE)%nat
  /\ (stored (lit "/var/data" ++ drop 5 (path r)) <= 512)%nat.
Proof.
  intros Hpath Hd Hresp. split.
  2:{ unfold stored, PATH_SIZE in *. rewrite length_app, length_drop.
      change (length (lit "/var/data")) with 9%nat. lia. }
  revert Hresp. unfold route.
  destruct (strcmp0 (method r) (lit "GET")).
  { destruct (strncmp0 (path r) (lit "/file/") 6);
      [apply serve_file_response_fits|].
    destruct (strcmp0 (path r) (lit "/status")); unfold reply;
      cbn [h_response]; intros Hr; apply (inj Some) in Hr; subst resp.
    - unfold stored, RESPONSE_SIZE, status_line. rewrite !length_app.
      change (length (lit "HTTP/1.1 200 OK")) with 15%nat.
      change (length CRLFCRLF) with 4%nat.
      change (length (lit "Server running, connections: ")) with 29%nat.
      lia.
    - vm_compute. lia. }
  destruct (strcmp0 (method r) (lit "POST"));
    [|intros Hr; apply (inj Some) in Hr; subst resp; vm_compute; lia].
  destruct (strcmp0 (path r) (lit "/login")).
  { unfold login. repeat case_match; cbn [h_response no_reply]; try done;
      intros Hr; apply (inj Some) in Hr; subst resp; vm_compute; lia. }
  destruct (strcmp0 (path r) (lit "/exec")).
  { unfold exec. destruct (0 <? length (body r))%nat; [|done].
    destruct (popen_r w (body r)) as [out|]; cbn [h_response];
      intros Hr; apply (inj Some) in Hr; subst resp; [|vm_compute; lia].
    pose proof (length_take_le (CONTENT_SIZE - 1) out) as Hlen.
    pose proof (c_str_length (fread (CONTENT_SIZE - 1) out)) as Hstr.
    unfold stored, RESPONSE_SIZE, status_line. rewrite !length_app.
    change (length (lit "HTTP/1.1 200 OK")) with 15%nat.
    change (length CRLFCRLF) with 4%nat.
    unfold fread, CONTENT_SIZE in *. lia. }
  destruct (strcmp0 (path r) (lit "/upload")).
  { unfold upload. repeat case_match; cbn [h_response no_reply]; try done;
      intros Hr; apply (inj Some) in Hr; subst resp; vm_compute; lia. }
  unfold reply. cbn [h_response].
  intros Hr; apply (inj Some) in Hr; subst resp; vm_compute; lia.
Qed.

Lemma route_writes_fit_witness :
  (stored (lit "HTTP/1.1 200 OK" ++ CRLFCRLF
           ++ lit "Server running, connections: -2147483648")
   <= RESPONSE_SIZE)%nat
  /\ (stored (lit "/var/data" ++ drop 5 (lit "/status")) <= 512)%nat.
Proof.
  apply (route_writes_fit bare_world (-2147483648) zero_connection
           {| method := lit "GET"; path := lit "/status"; body := [] |}).
  - vm_compute. lia.
  - vm_compute. lia.
  - reflexivity.
Defined.

(** ** The codec, further *)

Lemma c_str_padded s k : no_nul s -> c_str (s ++ replicate k NUL) = s.
Proof.
  induction 1 as [|c s Hc _ IH]; simpl.
  - by destruct k.
  - apply Ascii.eqb_neq in Hc. by rewrite Hc, IH.
Qed.

Lemma strstr_first pre h needle post :
  Forall (fun c => c <> h) pre ->
  strstr (pre ++ (h :: needle) ++ post) (h :: needle) = Some (length pre).
Proof.
  induction 1 as [|c pre Hc _ IH]; rewrite strstr_unfold.
  - assert (starts_with (h :: needle) ([] ++ (h :: needle) ++ post) = true)
      as -> by (apply starts_with_prefix; eauto). done.
  - simpl. assert (Ascii.eqb h c = false) as ->.
    { apply Ascii.eqb_neq. congruence. }
    simpl. simpl in IH. by rewrite IH.
Qed.

Lemma fields_word w rest f fs :
  no_space w -> fields rest = f :: fs -> fields (w ++ rest) = (w ++ f) :: fs.
Proof.
  intros Hw Hr. induction Hw as [|c w Hc _ IH]; simpl; [done|].
  by rewrite Hc, IH.
Qed.

Lemma tokens_word w rest :
  w <> [] -> no_space w ->
  rest = [] \/ (exists c r, rest = c :: r /\ isspace c = true) ->
  tokens (w ++ rest) = w :: tokens rest.
Proof.
  intros Hne Hw Hrest.
  assert (exists fs, fields rest = [] :: fs) as [fs Hf].
  { destruct Hrest as [->|(c & r & -> & Hc)]; simpl; [eauto|].
    rewrite Hc. eauto. }
  unfold tokens. rewrite (fields_word _ _ _ _ Hw Hf), Hf, app_nil_r.
  simpl. by destruct w.
Qed.

Lemma no_space_not_cr s : no_space s -> Forall (fun c => c <> CR) s.
Proof.
  intros H. eapply Forall_impl; [exact H|].
  intros c Hc ->. vm_compute in Hc. discriminate.
Qed.

Lemma parse_request_text m p b k bufs :
  m <> [] -> p <> [] ->
  no_space m -> no_space p ->
  no_nul m -> no_nul p -> no_nul b ->
  parse_request (request_text m p b ++ replicate k NUL) bufs
  = (0, {| method := m; path := p; body := b |}).
Proof.
  intros Hm Hp Hsm Hsp Hnm Hnp Hnb.
  assert (Hs : c_str (request_text m p b ++ replicate k NUL)
               = request_text m p b).
  { apply c_str_padded. unfold request_text, no_nul.
    rewrite !Forall_app. repeat split; try done; repeat constructor; done. }
  unfold parse_request. rewrite Hs.
  assert (Hsep : strstr (request_text m p b) CRLFCRLF
                 = Some (length (m ++ [" "%char] ++ p))).
  { unfold request_text.
    replace (m ++ [" "%char] ++ p ++ CRLFCRLF ++ b)
      with ((m ++ [" "%char] ++ p) ++ CRLFCRLF ++ b)
      by (by rewrite <- !app_assoc).
    apply strstr_first. rewrite !Forall_app.
    repeat split; [by apply no_space_not_cr | | by apply no_space_not_cr].
    by repeat constructor. }
  assert (Hcr : is_Some (strstr (request_text m p b) CRLF)).
  { apply strstr_contains. exists (m ++ [" "%char] ++ p), (CRLF ++ b).
    unfold request_text. by rewrite <- !app_assoc. }
  destruct Hcr as [j ->]. rewrite sscanf_s_s_tokens, Hsep.
  assert (Ht : tokens (request_text m p b)
               = m :: p :: tokens (CRLFCRLF ++ b)).
  { unfold request_text. rewrite (tokens_word m); [|done|done|].
    2:{ right. exists " "%char, (p ++ CRLFCRLF ++ b). done. }
    f_equal. change ([" "%char] ++ p ++ CRLFCRLF ++ b)
      with (" "%char :: (p ++ CRLFCRLF ++ b)).
    rewrite tokens_space by done.
    apply tokens_word; [done|done|]. right. by exists CR, (LF :: CRLF ++ b). }
  rewrite Ht. simpl. do 2 f_equal. unfold request_text.
  replace (m ++ [" "%char] ++ p ++ CRLFCRLF ++ b)
    with ((m ++ [" "%char] ++ p) ++ CRLFCRLF ++ b)
    by (by rewrite <- !app_assoc).
  rewrite drop_app_add'; [|done]. done.
Qed.

(** X17. Round trip of a request.  For a method and a path that are not
    empty and hold no white space, and a body, none of them holding a NUL,
    [parse_request] applied to "method path CRLF CRLF body" (zero-padded
    or not) returns 0 and gives back the method, the path and the body. *)
Theorem parse_request_round_trip m p b k bufs :
  m <> [] -> p <> [] ->
  no_space m -> no_space p ->
  no_nul m -> no_nul p -> no_nul b ->
  parse_request (request_text m p b ++ replicate k NUL) bufs
  = (0, {| method := m; path := p; body := b |}).
Proof. apply parse_request_text. Qed.

Lemma parse_request_round_trip_witness :
  parse_request
    (request_text (lit "POST") (lit "/exec") (lit "uname -a")
     ++ replicate 3 NUL) zeroed
  = (0, {| method := lit "POST"; path := lit "/exec";
           body := lit "uname -a" |}).
Proof.
  apply (parse_request_round_trip (lit "POST") (lit "/exec")
           (lit "uname -a") 3 zeroed); try discriminate;
    repeat constructor; discriminate.
Defined.

(** X18. What [parse_request] leaves in its outputs.  Without a CRLF it
    returns -1 and touches none of them.  With one, [method] holds the
    first white-space-delimited token of the string (or is untouched when
    there is none) and [body] holds all that follows the first blank line
    (or is untouched when there is none). *)
Theorem parse_request_outputs raw bufs :
  (~ contains CRLF (c_str raw) -> parse_request raw bufs = (-1, bufs))
  /\ (contains CRLF (c_str raw) ->
      method (snd (parse_request raw bufs))
        = default (method bufs) (tokens (c_str raw) !! 0%nat)
      /\ body (snd (parse_request raw bufs))
        = match strstr (c_str raw) CRLFCRLF with
          | Some off => drop (off + 4) (c_str raw)
          | None => body bufs
          end).
Proof.
  split.
  - intros Hno. unfold parse_request.
    destruct (strstr (c_str raw) CRLF) as [k|] eqn:E; [|done].
    exfalso. apply Hno, strstr_contains. eauto.
  - intros [k Hk]%strstr_contains. unfold parse_request.
    rewrite Hk, sscanf_s_s_tokens.
    by destruct (strstr (c_str raw) CRLFCRLF).
Qed.

Lemma parse_request_outputs_witness :
  parse_request (lit "no line end") zeroed = (-1, zeroed)
  /\ method (snd (parse_request (lit "PUT" ++ CRLF ++ lit "x") zeroed))
     = lit "PUT"
  /\ body (snd (parse_request (lit "PUT" ++ CRLF ++ lit "x") zeroed)) = [].
Proof.
  split.
  - apply (proj1 (parse_request_outputs (lit "no line end") zeroed)).
    rewrite strstr_contains. vm_compute. intros [? H]. discriminate.
  - apply (proj2 (parse_request_outputs (lit "PUT" ++ CRLF ++ lit "x")
                    zeroed)).
    exists (lit "PUT"), (lit "x"). reflexivity.
Defined.

(** ** The worker, further *)

(** X19. The tokens of the request line are stored unbounded: whenever
    what was received holds a CRLF and its first token has 16 characters
    or more, or its second token 256 or more, the pass of the loop writes
    past the end of [method] or [path]. *)
Theorem worker_iteration_token_overrun w slot data st buffer :
  recv_buffer data = Some buffer ->
  contains CRLF (c_str buffer) ->
  (exists m, tokens (c_str buffer) !! 0%nat = Some m
             /\ (METHOD_SIZE <= length m)%nat)
  \/ (exists p, tokens (c_str buffer) !! 1%nat = Some p
                /\ (PATH_SIZE <= length p)%nat) ->
  worker_iteration w slot data st = None.
Proof.
  intros Hbuf Hcr Hlong. destruct data as [|d data].
  { injection Hbuf as <-. apply strstr_contains in Hcr as [k Hk].
    vm_compute in Hk. discriminate. }
  unfold worker_iteration. destruct (connections st !! slot); [|done].
  rewrite Hbuf.
  destruct (parse_request_method_path buffer zeroed Hcr) as [Hm Hp].
  pose proof (parse_request_rc buffer zeroed) as Hrc.
  apply strstr_contains in Hcr as [k Hk]. rewrite Hk in Hrc.
  destruct (parse_request buffer zeroed) as [rc req].
  simpl in Hm, Hp, Hrc. subst rc. change (0 =? 0) with true. cbv iota.
  assert (request_fits req = false) as ->; [|done].
  unfold request_fits, stored.
  destruct Hlong as [(m & Ht & Hlen)|(p & Ht & Hlen)].
  - rewrite Ht in Hm. simpl in Hm. rewrite Hm.
    apply andb_false_intro1, andb_false_intro1, Nat.leb_gt. lia.
  - rewrite Ht in Hp. simpl in Hp. rewrite Hp.
    apply andb_false_intro1, andb_false_intro2, Nat.leb_gt. lia.
Qed.

Lemma worker_iteration_token_overrun_witness :
  worker_iteration bare_world 0
    (lit "AAAAAAAAAAAAAAAA /" ++ CRLFCRLF) one_client = None.
Proof.
  apply (worker_iteration_token_overrun bare_world 0
           (lit "AAAAAAAAAAAAAAAA /" ++ CRLFCRLF) one_client
           (lit "AAAAAAAAAAAAAAAA /" ++ CRLFCRLF ++ replicate 2026 NUL)).
  - reflexivity.
  - exists (lit "AAAAAAAAAAAAAAAA /"), CRLF. reflexivity.
  - left. exists (lit "AAAAAAAAAAAAAAAA"). split; [reflexivity|].
    vm_compute. lia.
Defined.

Lemma recv_buffer_short data :
  (length data < RECV_BUFFER_SIZE)%nat ->
  recv_buffer data
  = Some (data ++ replicate (RECV_BUFFER_SIZE - length data) NUL).
Proof.
  intros H. unfold recv_buffer. rewrite take_ge by lia.
  destruct (Nat.ltb_spec (length data) RECV_BUFFER_SIZE); [done | lia].
Qed.

(** X20. A request that fits is served.  For a request "method path
    CRLF CRLF body" of fewer than 2048 bytes whose method, path and body
    are shorter than 16, 256 and 1024 characters, the pass of the loop
    routes exactly that method, path and body, stores the connection
    record the route returns, performs its effects and sends its response
    once, on the socket of the slot; the worker goes on reading. *)
Theorem worker_iteration_serves w slot st conn m p b :
  connections st !! slot = Some conn ->
  m <> [] -> p <> [] ->
  no_space m -> no_space p ->
  no_nul m -> no_nul p -> no_nul b ->
  (length m < METHOD_SIZE)%nat ->
  (length p < PATH_SIZE)%nat ->
  (length b < BODY_SIZE)%nat ->
  (length (request_text m p b) < RECV_BUFFER_SIZE)%nat ->
  let h := route w (conn_count st) conn
             {| method := m; path := p; body := b |} in
  worker_iteration w slot (request_text m p b) st
  = Some (Continue,
          {| connections := <[slot := h_conn h]> (connections st);
             conn_count := conn_count st;
             workers := workers st;
             trace := trace st ++ h_events h
                      ++ [EvSend (socket conn) (h_response h)] |}).
Proof.
  intros Hc Hm Hp Hsm Hsp Hnm Hnp Hnb Hlm Hlp Hlb Hlen h.
  unfold worker_iteration. rewrite Hc, (recv_buffer_short _ Hlen).
  rewrite parse_request_text by done.
  assert (Hfit : request_fits {| method := m; path := p; body := b |} = true).
  { unfold request_fits, stored. cbn [method path body].
    rewrite !andb_true_iff, !Nat.leb_le.
    unfold METHOD_SIZE, PATH_SIZE, BODY_SIZE in *. lia. }
  change (0 =? 0) with true. cbv iota. rewrite Hfit.
  destruct (request_text m p b) eqn:E; [|done].
  unfold request_text in E. by destruct m.
Qed.

Lemma worker_iteration_serves_witness :
  worker_iteration bare_world 0
    (request_text (lit "GET") (lit "/status") []) one_client
  = Some (Continue,
          emit [EvSend 4 (Some (lit "HTTP/1.1 200 OK" ++ CRLFCRLF
                                ++ lit "Server running, connections: 1"))]
               one_client).
Proof.
  rewrite (worker_iteration_serves bare_world 0 one_client
             {| socket := 4; client_ip := Some (lit "10.0.0.1");
                authenticated := 0; username := []; thread := 4;
                active := 1 |}
             (lit "GET") (lit "/status") []);
    try reflexivity; try discriminate;
    try (repeat constructor; discriminate);
    vm_compute; lia.
Defined.

Lemma route_events_no_close w n c r :
  Forall (fun e => is_close e = false) (h_events (route w n c r)).
Proof.
  unfold route, serve_file, login, exec, upload, reply, no_reply.
  repeat case_match; simpl; repeat constructor.
Qed.

(** A route leaves the connection record alone or logs a user of 63
    characters in. *)
Lemma route_conn_login w n c r :
  h_conn (route w n c r) = c
  \/ exists user, length user = 63%nat
                  /\ h_conn (route w n c r) = logged_in c user.
Proof.
  unfold route, strcmp0.
  destruct (bytes_eqb (method r) (lit "GET")).
  { left. unfold serve_file, reply. repeat case_match; done. }
  destruct (bytes_eqb (method r) (lit "POST")); [|by left].
  destruct (bytes_eqb (path r) (lit "/login")).
  2:{ left. unfold exec, upload, reply, no_reply. repeat case_match; done. }
  unfold login.
  destruct (sscanf_login (body r)) as [[u|] [p|]] eqn:Hs; try (by left).
  destruct (sscanf_login_both _ _ _ Hs) as (Hlen & _).
  destruct (_ || _); [|by left]. right. exists u. split; [done|].
  simpl. unfold logged_in. by rewrite take_ge by lia.
Qed.

Lemma session_of_trans c c1 c2 :
  session_of c c1 -> session_of c1 c2 -> session_of c c2.
Proof.
  unfold session_of.
  intros [->|(u1 & H1 & ->)] [->|(u2 & H2 & ->)]; eauto.
Qed.

Lemma worker_iteration_frame w slot data st ctl st' c :
  connections st !! slot = Some c ->
  worker_iteration w slot data st = Some (ctl, st') ->
  conn_count st' = conn_count st
  /\ workers st' = workers st
  /\ (forall j, j <> slot -> connections st' !! j = connections st !! j)
  /\ (exists c', connections st' !! slot = Some c' /\ session_of c c')
  /\ exists evs, trace st' = trace st ++ evs
                 /\ Forall (fun e => is_close e = false) evs.
Proof.
  intros Hc. unfold worker_iteration. rewrite Hc.
  assert (Hsame : conn_count st = conn_count st
    /\ workers st = workers st
    /\ (forall j, j <> slot -> connections st !! j = connections st !! j)
    /\ (exists c', connections st !! slot = Some c' /\ session_of c c')
    /\ exists evs, trace st = trace st ++ evs
                   /\ Forall (fun e => is_close e = false) evs).
  { repeat split; [exists c; split; [done | by left]|].
    exists []. by rewrite app_nil_r. }
  destruct data as [|d data]; [by intros [= <- <-]|].
  destruct (recv_buffer (d :: data)) as [buffer|]; [|done].
  destruct (parse_request buffer zeroed) as [rc req].
  destruct (rc =? 0); [|by intros [= <- <-]].
  destruct (request_fits req); [|done].
  intros [= <- <-]. simpl. split; [done|]. split; [done|].
  split; [|split].
  - intros j Hj. by rewrite list_lookup_insert_ne.
  - exists (h_conn (route w (conn_count st) c req)).
    rewrite list_lookup_insert_eq by by eapply lookup_lt_Some.
    split; [done|]. apply route_conn_login.
  - eexists. split; [done|]. apply Forall_app. split.
    + apply route_events_no_close.
    + by repeat constructor.
Qed.

Lemma worker_loop_frame slot inputs st st' c :
  connections st !! slot = Some c ->
  worker_loop slot inputs st = Some st' ->
  conn_count st' = conn_count st
  /\ workers st' = workers st
  /\ (forall j, j <> slot -> connections st' !! j = connections st !! j)
  /\ (exists c', connections st' !! slot = Some c' /\ session_of c c')
  /\ exists evs, trace st' = trace st ++ evs
                 /\ Forall (fun e => is_close e = false) evs.
Proof.
  revert st c; induction inputs as [|[w data] rest IH]; intros st c Hc.
  - simpl. rewrite Hc. destruct (is_active c); intros [= <-];
      (repeat split; [exists c; split; [done | by left]|]);
      exists []; by rewrite app_nil_r.
  - simpl. rewrite Hc. destruct (is_active c).
    2:{ intros [= <-]. repeat split; [exists c; split; [done | by left]|].
        exists []. by rewrite app_nil_r. }
    destruct (worker_iteration w slot data st) as [[ctl st1]|] eqn:E; [|done].
    destruct (worker_iteration_frame _ _ _ _ _ _ _ Hc E)
      as (Hn & Hw & Ho & (c1 & Hc1 & Hs1) & (ev1 & Ht1 & Hf1)).
    destruct ctl.
    + intros Hloop.
      destruct (IH _ _ Hc1 Hloop)
        as (Hn' & Hw' & Ho' & (c2 & Hc2 & Hs2) & (ev2 & Ht2 & Hf2)).
      split; [congruence|]. split; [congruence|]. split; [|split].
      * intros j Hj. rewrite Ho', Ho; done.
      * exists c2. split; [done|]. by eapply session_of_trans.
      * exists (ev1 ++ ev2). rewrite Ht2, Ht1, app_assoc. split; [done|].
        by apply Forall_app.
    + intros [= <-]. repeat split; eauto.
Qed.

(** X21. A worker run from entry to return touches no slot but its own,
    never closes a descriptor while it serves, closes the descriptor of
    its slot once at the end and takes one from [conn_count].  Its slot
    ends inactive with a NULL peer address and with the [authenticated]
    and [username] the loop left in it: those of entry, or
    [authenticated = 1] and the 63-character name of a login served in
    between. *)
Theorem handle_connection_releases slot inputs st st' c :
  connections st !! slot = Some c ->
  handle_connection slot inputs st = Some st' ->
  conn_count st' = conn_count st - 1
  /\ workers st' = remove_worker slot (workers st)
  /\ (forall j, j <> slot -> connections st' !! j = connections st !! j)
  /\ (exists st1 c',
        worker_loop slot inputs st = Some st1
        /\ connections st1 !! slot = Some c'
        /\ connections st' !! slot
           = Some {| socket := socket c; client_ip := None;
                     authenticated := authenticated c';
                     username := username c';
                     thread := thread c; active := 0 |}
        /\ ((authenticated c' = authenticated c
             /\ username c' = username c)
            \/ (authenticated c' = 1 /\ length (username c') = 63%nat)))
  /\ exists evs, trace st' = trace st ++ evs ++ [EvClose (socket c)]
                 /\ Forall (fun e => is_close e = false) evs.
Proof.
  intros Hc. unfold handle_connection.
  destruct (worker_loop slot inputs st) as [st1|] eqn:E; [|done].
  intros [= <-].
  destruct (worker_loop_frame _ _ _ _ _ Hc E)
    as (Hn & Hw & Ho & (c1 & Hc1 & Hs1) & (ev1 & Ht1 & Hf1)).
  unfold worker_cleanup. rewrite Hc1. simpl.
  split; [lia|]. split; [by rewrite Hw|]. split; [|split].
  - intros j Hj. rewrite list_lookup_insert_ne by done. by apply Ho.
  - exists st1, c1. split; [done|]. split; [done|].
    rewrite list_lookup_insert_eq by by eapply lookup_lt_Some.
    destruct Hs1 as [->|(user & Hlen & ->)]; simpl.
    + split; [done | by left].
    + split; [done | by right].
  - exists ev1. rewrite Ht1, <- app_assoc.
    by destruct Hs1 as [->|(user & Hlen & ->)].
Qed.

Lemma handle_connection_releases_witness :
  exists st',
    handle_connection 0 [(bare_world, login_request)] one_client = Some st'
    /\ conn_count st' = 0
    /\ connections st' !! 0%nat
       = Some {| socket := 4; client_ip := None; authenticated := 1;
                 username := long_name; thread := 4; active := 0 |}
    /\ conn_count st' = conn_count one_client - 1
    /\ workers st' = remove_worker 0 (workers one_client)
    /\ (forall j, j <> 0%nat ->
                  connections st' !! j = connections one_client !! j)
    /\ (exists st1 c',
          worker_loop 0 [(bare_world, login_request)] one_client = Some st1
          /\ connections st1 !! 0%nat = Some c'
          /\ connections st' !! 0%nat
             = Some {| socket := 4; client_ip := None;
                       authenticated := authenticated c';
                       username := username c';
                       thread := 4; active := 0 |}
          /\ ((authenticated c' = 0 /\ username c' = [])
              \/ (authenticated c' = 1
                  /\ length (username c') = 63%nat)))
    /\ exists evs, trace st' = trace one_client ++ evs ++ [EvClose 4]
                   /\ Forall (fun e => is_close e = false) evs.
Proof.
  eexists. split; [vm_compute; reflexivity|].
  split; [reflexivity|]. split; [reflexivity|].
  apply (handle_connection_releases 0 [(bare_world, login_request)]
           one_client _
           {| socket := 4; client_ip := Some (lit "10.0.0.1");
              authenticated := 0; username := []; thread := 4;
              active := 1 |}).
  - reflexivity.
  - vm_compute. reflexivity.
Defined.

Lemma take_word_all n s :
  no_space s -> (length s <= n)%nat -> take_word (Some n) s = (s, []).
Proof.
  intros H; revert n; induction H as [|c s Hc _ IH]; intros n Hn.
  - by destruct n.
  - destruct n as [|n]; simpl in *; [lia|].
    rewrite Hc, (IH n) by lia. done.
Qed.

(** X22. The file name of an upload runs to the next white space.  For a
    body [filename=NAME&content=DATA] in which NAME is not empty and holds
    no [&], neither NAME nor DATA holds white space, and what follows
    [filename=] has at most 255 characters, the file opened is named
    [NAME&content=DATA]; when it opens, DATA is written to it and the
    answer is 200 File saved. *)
Theorem upload_file_name w c name data :
  name <> [] ->
  no_space name -> no_space data ->
  Forall (fun ch => ch <> "&"%char) name ->
  (length (name ++ lit "&content=" ++ data) <= 255)%nat ->
  fopen_w w (name ++ lit "&content=" ++ data) = true ->
  upload w c (lit "filename=" ++ name ++ lit "&content=" ++ data)
  = {| h_conn := c;
       h_response := Some (lit "HTTP/1.1 200 OK" ++ CRLFCRLF
                           ++ lit "File saved");
       h_events := [EvFwrite (name ++ lit "&content=" ++ data) data] |}.
Proof.
  intros Hne Hsn Hsd Hamp Hlen Hopen. unfold upload.
  assert (Hf : sscanf_filename (lit "filename=" ++ name ++ lit "&content="
                                ++ data)
               = Some (name ++ lit "&content=" ++ data)).
  { unfold sscanf_filename, scan_lit.
    assert (starts_with (lit "filename=")
              (lit "filename=" ++ name ++ lit "&content=" ++ data) = true)
      as -> by (apply starts_with_prefix; eauto).
    rewrite drop_app_length. unfold scan_s.
    assert (Hall : no_space (name ++ lit "&content=" ++ data)).
    { unfold no_space. rewrite !Forall_app. repeat split; try done.
      repeat constructor. }
    destruct name as [|ch name]; [done|].
    inversion Hsn as [|? ? Hch _]; subst. simpl skip_space. rewrite Hch.
    rewrite take_word_all; done. }
  rewrite Hf.
  assert (Hs : strstr (lit "filename=" ++ name ++ lit "&content=" ++ data)
                 (lit "&content=")
               = Some (length (lit "filename=" ++ name))).
  { replace (lit "filename=" ++ name ++ lit "&content=" ++ data)
      with ((lit "filename=" ++ name) ++ lit "&content=" ++ data)
      by (by rewrite <- app_assoc).
    apply (strstr_first _ "&"%char (lit "content=")).
    apply Forall_app. split; [by repeat constructor | done]. }
  rewrite Hs, Hopen. do 3 f_equal.
  replace (lit "filename=" ++ name ++ lit "&content=" ++ data)
    with ((lit "filename=" ++ name) ++ lit "&content=" ++ data)
    by (by rewrite <- app_assoc).
  rewrite drop_app_add'; done.
Qed.

Lemma upload_file_name_witness :
  upload {| fopen_r := fun _ => None; fopen_w := fun _ => true;
            popen_r := fun _ => None |}
    zero_connection (lit "filename=" ++ lit "a.txt" ++ lit "&content=" ++ lit "hi")
  = {| h_conn := zero_connection;
       h_response := Some (lit "HTTP/1.1 200 OK" ++ CRLFCRLF
                           ++ lit "File saved");
       h_events := [EvFwrite (lit "a.txt" ++ lit "&content=" ++ lit "hi")
                             (lit "hi")] |}.
Proof.
  apply (upload_file_name _ zero_connection (lit "a.txt") (lit "hi"));
    try discriminate; try reflexivity;
    try (vm_compute; lia);
    repeat constructor; discriminate.
Defined.

(** X23. POST /exec hands its whole body to [popen], whoever sent it.
    When the command starts, at most 2047 bytes of its output are read and
    returned after the 200 status line, as far as their first NUL; when it
    does not, the answer is 500 Execution failed.  The connection record
    is not changed. *)
Theorem exec_runs_body w n c r :
  method r = lit "POST" ->
  path r = lit "/exec" ->
  body r <> [] ->
  route w n c r
  = {| h_conn := c;
       h_response :=
         Some (match popen_r w (body r) with
               | Some out => lit "HTTP/1.1 200 OK" ++ CRLFCRLF
                             ++ c_str (take 2047 out)
               | None => lit "HTTP/1.1 500 Error" ++ CRLFCRLF
                         ++ lit "Execution failed"
               end);
       h_events := [EvPopen (body r)] |}.
Proof.
  intros Hm Hp Hb. unfold route. rewrite Hm, Hp. eval_strcmp. cbv iota.
  unfold exec. destruct (body r) as [|ch b]; [done|].
  change (0 <? length (ch :: b))%nat with true. cbv iota.
  by destruct (popen_r w (ch :: b)).
Qed.

Lemma exec_runs_body_witness :
  route {| fopen_r := fun _ => None; fopen_w := fun _ => false;
           popen_r := fun _ => Some (lit "Linux") |}
    0 zero_connection
    {| method := lit "POST"; path := lit "/exec"; body := lit "uname" |}
  = {| h_conn := zero_connection;
       h_response := Some (lit "HTTP/1.1 200 OK" ++ CRLFCRLF ++ lit "Linux");
       h_events := [EvPopen (lit "uname")] |}.
Proof.
  rewrite (exec_runs_body _ 0 zero_connection
             {| method := lit "POST"; path := lit "/exec";
                body := lit "uname" |});
    [reflexivity | reflexivity | reflexivity | discriminate].
Defined.

(** X24. Until the first shutdown GET /status tells the truth: in a state
    reached without [close_all_connections], the number in the response
    is the number of active slots. *)
Theorem status_exact_until_shutdown ops st w c r :
  CloseAll ∉ ops ->
  run ops initial_state = Some st ->
  method r = lit "GET" ->
  path r = lit "/status" ->
  h_response (route w (conn_count st) c r)
  = Some (lit "HTTP/1.1 200 OK" ++ CRLFCRLF
          ++ lit "Server running, connections: "
          ++ print_d (active_count st)).
Proof.
  intros Hno Hrun Hm Hp.
  destruct (count_inv_run _ _ _ Hno Hrun count_inv_initial) as (<- & _).
  unfold route. rewrite Hm, Hp. eval_strcmp.
  change (strncmp0 (lit "/status") (lit "/file/") 6) with false.
  cbv iota. unfold reply, status_line. cbn [h_response].
  by rewrite <- !app_assoc.
Qed.

Lemma status_exact_until_shutdown_witness :
  exists st,
    run [Accept (client 4); Accept (client 5)] initial_state = Some st
    /\ active_count st = 2
    /\ h_response (route bare_world (conn_count st) zero_connection
                     {| method := lit "GET"; path := lit "/status";
                        body := [] |})
       = Some (lit "HTTP/1.1 200 OK" ++ CRLFCRLF
               ++ lit "Server running, connections: "
               ++ print_d (active_count st)).
Proof.
  eexists. split; [vm_compute; reflexivity|]. split; [reflexivity|].
  apply (status_exact_until_shutdown
           [Accept (client 4); Accept (client 5)]).
  - intros H. repeat (apply elem_of_cons in H as [H|H]; [discriminate|]).
    by apply elem_of_nil in H.
  - vm_compute. reflexivity.
  - reflexivity.
  - reflexivity.
Defined.

Lemma c_str_app_nul d junk : c_str (d ++ NUL :: junk) = c_str d.
Proof.
  induction d as [|ch d IH]; simpl; [done|].
  destruct (Ascii.eqb ch NUL); [done | by rewrite IH].
Qed.

Lemma c_str_app_nuls d k : c_str (d ++ replicate k NUL) = c_str d.
Proof.
  destruct k as [|k]; [by rewrite app_nil_r|]. apply c_str_app_nul.
Qed.

Lemma parse_request_c_str raw1 raw2 bufs :
  c_str raw1 = c_str raw2 -> parse_request raw1 bufs = parse_request raw2 bufs.
Proof. intros H. unfold parse_request. by rewrite H. Qed.

(** X25. What follows a NUL in the bytes received is never looked at.
    A read of fewer than 2048 bytes whose first byte is not NUL is
    served exactly as the same read cut before a NUL byte of it.  A read
    that begins with a NUL byte is an empty string to the parser: it is
    passed over like any request without CRLF, nothing is sent and the
    worker reads on (whereas a read of no byte at all ends the loop). *)
Theorem worker_iteration_ignores_after_nul w slot st d junk :
  (length (d ++ NUL :: junk) < RECV_BUFFER_SIZE)%nat ->
  (d <> [] ->
   worker_iteration w slot (d ++ NUL :: junk) st
   = worker_iteration w slot d st)
  /\ (forall c, connections st !! slot = Some c ->
                worker_iteration w slot (NUL :: junk) st
                = Some (Continue, st)
                /\ worker_iteration w slot [] st = Some (Break, st)).
Proof.
  intros Hlen. split.
  - intros Hd. unfold worker_iteration.
    destruct (connections st !! slot) as [conn|]; [|done].
    assert (Hlen' : (length d < RECV_BUFFER_SIZE)%nat).
    { rewrite length_app in Hlen. lia. }
    rewrite (recv_buffer_short _ Hlen), (recv_buffer_short _ Hlen').
    rewrite (parse_request_c_str _
               (d ++ replicate (RECV_BUFFER_SIZE - length d) NUL)).
    2:{ rewrite !c_str_app_nuls. apply c_str_app_nul. }
    destruct d as [|ch d]; [done|]. done.
  - intros c Hc. unfold worker_iteration. rewrite Hc. split; [|done].
    assert (Hlen' : (length (NUL :: junk) < RECV_BUFFER_SIZE)%nat).
    { rewrite length_app in Hlen. simpl in *. lia. }
    rewrite (recv_buffer_short _ Hlen').
    rewrite (parse_request_c_str _ []); [done|].
    rewrite c_str_app_nuls. done.
Qed.

Lemma worker_iteration_ignores_after_nul_witness :
  worker_iteration bare_world 0
    ((lit "GET /status" ++ CRLFCRLF) ++ NUL :: lit "POST /exec") one_client
  = worker_iteration bare_world 0 (lit "GET /status" ++ CRLFCRLF) one_client
  /\ worker_iteration bare_world 0 (NUL :: lit "POST /exec") one_client
     = Some (Continue, one_client)
  /\ worker_iteration bare_world 0 [] one_client = Some (Break, one_client).
Proof.
  destruct (worker_iteration_ignores_after_nul bare_world 0 one_client
              (lit "GET /status" ++ CRLFCRLF) (lit "POST /exec")) as [H1 H2].
  - vm_compute. lia.
  - split; [apply H1; discriminate|].
    apply (H2 {| socket := 4; client_ip := Some (lit "10.0.0.1");
                 authenticated := 0; username := []; thread := 4;
                 active := 1 |}).
    reflexivity.
Defined.

(** X26. A read that fills the 2048 bytes of the buffer without a NUL
    leaves no terminator: the search for CRLF then runs past the end of
    the buffer. *)
Theorem worker_iteration_full_buffer w slot st data :
  (RECV_BUFFER_SIZE <= length data)%nat ->
  no_nul (take RECV_BUFFER_SIZE data) ->
  worker_iteration w slot data st = None.
Proof.
  intros Hlen Hnul. unfold worker_iteration.
  destruct (connections st !! slot) as [conn|]; [|done].
  assert (recv_buffer data = None) as ->.
  { unfold recv_buffer. rewrite length_take.
    destruct (Nat.ltb_spec (RECV_BUFFER_SIZE `min` length data)
                RECV_BUFFER_SIZE) as [H|H]; [lia|]. cbn [orb].
    destruct (existsb (Ascii.eqb NUL) (take RECV_BUFFER_SIZE data)) eqn:E;
      [|done].
    apply existsb_exists in E as (x & Hin & Hx).
    apply Ascii.eqb_eq in Hx. subst x.
    unfold no_nul in Hnul. rewrite Forall_forall in Hnul.
    apply list_elem_of_In in Hin. by apply Hnul in Hin. }
  destruct data as [|ch data]; [|done]. simpl in Hlen.
  unfold RECV_BUFFER_SIZE in Hlen. lia.
Qed.

Lemma worker_iteration_full_buffer_witness :
  worker_iteration bare_world 0 (replicate 2048 "A"%char) one_client = None.
Proof.
  apply (worker_iteration_full_buffer bare_world 0 one_client
           (replicate 2048 "A"%char)).
  - vm_compute. lia.
  - apply Forall_take, Forall_replicate. discriminate.
Defined.

(** For a worker whose slot is active at the head of the loop, entry and
    resumption at [recv] are the same run. *)
Lemma resume_connection_at_head slot first rest st c :
  connections st !! slot = Some c ->
  active c <> 0 ->
  handle_connection slot (first :: rest) st
  = resume_connection slot first rest st.
Proof.
  intros Hc Hact. apply is_active_true in Hact.
  unfold handle_connection, resume_connection. destruct first as [w data].
  simpl. rewrite Hc, Hact.
  by destruct (worker_iteration w slot data st) as [[[|] st1]|].
Qed.

(** X27. A shutdown does not stop the workers.  A worker that was
    waiting in [recv] when [close_all_connections] cleared its slot still
    serves the request it then receives: the route runs with its effects
    and the response is sent on the descriptor the shutdown has closed;
    only at the head of the loop does it leave, whatever else is waiting
    to be read.  A worker that tests [active] after the shutdown serves
    nothing.  Either way the worker closes the descriptor a second time
    and its release block takes [conn_count] from 0 to -1. *)
Theorem worker_after_shutdown slot w data rest st c buffer req :
  connections st !! slot = Some c ->
  active c <> 0 ->
  data <> [] ->
  recv_buffer data = Some buffer ->
  parse_request buffer zeroed = (0, req) ->
  request_fits req = true ->
  let st0 := close_all_connections st in
  let h := route w 0 (released c) req in
  resume_connection slot (w, data) rest st0
  = Some {| connections := <[slot := retired (h_conn h)]> (connections st0);
            conn_count := -1;
            workers := remove_worker slot (workers st);
            trace := trace st ++ closes_of (connections st)
                     ++ h_events h
                     ++ [EvSend (socket c) (h_response h);
                         EvClose (socket c)] |}
  /\ handle_connection slot ((w, data) :: rest) st0
     = Some {| connections := <[slot := retired c]> (connections st0);
               conn_count := -1;
               workers := remove_worker slot (workers st);
               trace := trace st ++ closes_of (connections st)
                        ++ [EvClose (socket c)] |}
  /\ EvClose (socket c) ∈ closes_of (connections st).
Proof.
  intros Hc Hact Hdata Hbuf Hparse Hfit st0 h.
  assert (Hl : connections st0 !! slot = Some (released c)).
  { unfold st0. by rewrite close_all_connections_table, list_lookup_fmap, Hc. }
  assert (Hn : conn_count st0 = 0).
  { unfold st0, close_all_connections.
    by destruct (close_loop (connections st)). }
  assert (Ht : trace st0 = trace st ++ closes_of (connections st)).
  { rewrite <- close_loop_events. unfold st0, close_all_connections.
    by destruct (close_loop (connections st)). }
  assert (Hw : workers st0 = workers st).
  { unfold st0, close_all_connections.
    by destruct (close_loop (connections st)). }
  split; [|split].
  - unfold resume_connection, worker_iteration. cbn [fst snd].
    rewrite Hl, Hbuf, Hparse, Hfit, Hn. fold h.
    destruct data as [|d data]; [done|].
    change (0 =? 0) with true. cbv iota.
    assert (Hact' : is_active (h_conn h) = false).
    { apply is_active_false. unfold h. by rewrite route_active. }
    assert (Hsock : socket (h_conn h) = socket c).
    { unfold h.
      by destruct (route_conn w 0 (released c) req) as [->|[user ->]]. }
    assert (Hlen : (slot < length (connections st0))%nat)
      by by eapply lookup_lt_Some.
    assert (worker_loop slot rest
              {| connections := <[slot:=h_conn h]> (connections st0);
                 conn_count := 0; workers := workers st0;
                 trace := trace st0 ++ h_events h
                          ++ [EvSend (socket (released c)) (h_response h)] |}
            = Some {| connections := <[slot:=h_conn h]> (connections st0);
                      conn_count := 0; workers := workers st0;
                      trace := trace st0 ++ h_events h
                               ++ [EvSend (socket (released c))
                                     (h_response h)] |}) as ->.
    { destruct rest as [|[w' d'] rest]; simpl;
        by rewrite list_lookup_insert_eq, Hact' by done. }
    simpl. unfold worker_cleanup. simpl.
    rewrite list_lookup_insert_eq by done. simpl.
    rewrite list_insert_insert_eq, Hsock, Ht, Hw. f_equal. f_equal.
    + unfold retired. by rewrite Hsock.
    + by rewrite <- !app_assoc.
  - unfold handle_connection.
    assert (worker_loop slot ((w, data) :: rest) st0 = Some st0) as ->.
    { simpl. by rewrite Hl. }
    simpl. unfold worker_cleanup. rewrite Hl. simpl.
    rewrite Hn, Ht, Hw. f_equal. f_equal. by rewrite <- app_assoc.
  - unfold closes_of. apply list_elem_of_fmap. exists c. split; [done|].
    apply list_elem_of_filter. split; [by apply is_active_true|].
    by eapply list_elem_of_lookup_2.
Qed.

Lemma worker_after_shutdown_witness :
  trace <$> resume_connection 0 (linux_world, exec_request) []
              (close_all_connections one_client)
  = Some (trace one_client
          ++ [EvClose 4; EvPopen (lit "uname");
              EvSend 4 (Some (lit "HTTP/1.1 200 OK" ++ CRLFCRLF
                              ++ lit "Linux"));
              EvClose 4])
  /\ conn_count <$> resume_connection 0 (linux_world, exec_request) []
                      (close_all_connections one_client)
     = Some (-1)
  /\ trace <$> handle_connection 0 [(linux_world, exec_request)]
                 (close_all_connections one_client)
     = Some (trace one_client ++ [EvClose 4; EvClose 4])
  /\ EvClose 4 ∈ closes_of (connections one_client).
Proof.
  destruct (worker_after_shutdown 0 linux_world exec_request [] one_client
              {| socket := 4; client_ip := Some (lit "10.0.0.1");
                 authenticated := 0; username := []; thread := 4;
                 active := 1 |}
              (exec_request
               ++ replicate (RECV_BUFFER_SIZE - length exec_request) NUL)
              {| method := lit "POST"; path := lit "/exec";
                 body := lit "uname" |}) as (H1 & H2 & H3).
  - reflexivity.
  - simpl. lia.
  - discriminate.
  - reflexivity.
  - reflexivity.
  - reflexivity.
  - rewrite H1, H2. split; [reflexivity|]. split; [reflexivity|].
    split; [reflexivity | exact H3].
Defined.

(** The same in a run of the registry: the command is run and answered
    after the shutdown, and the counter ends below zero. *)
Example run_served_after_shutdown :
  exists st,
    run served_after_shutdown initial_state = Some st
    /\ conn_count st = -1
    /\ active_count st = 0
    /\ drop 1 (trace st)
       = [EvClose 4; EvPopen (lit "uname");
          EvSend 4 (Some (lit "HTTP/1.1 200 OK" ++ CRLFCRLF ++ lit "Linux"));
          EvClose 4].
Proof.
  eexists. split; [vm_compute; reflexivity|]. repeat split; done.
Qed.
